(** * ninjabot: the Telegram control plane (package notification, telegram.go)

    A shallow embedding of [telegram.go]: the access filter and the
    endpoints installed by [NewTelegram], the command handlers, [Start],
    [Notify], [OnOrder] and [OnError], together with the parts of the Go
    libraries they rely on (the two regular expressions,
    [strconv.ParseFloat], [strings.ToUpper], float64 arithmetic).  Calls
    that leave the file (the Telegram client, the order controller, the
    logger) are kept as the nodes of a small program type and answered by an
    arbitrary environment; the properties below hold for every environment
    unless they name one. *)

From Stdlib Require Import ZArith String Ascii List Bool Lia.
From Stdlib Require Import Floats.SpecFloat.
From stdpp Require Import gmap strings.
Import ListNotations.

Open Scope string_scope.
Open Scope list_scope.

(** ** float64

    Go's float64 is IEEE 754 binary64.  The values are those of
    [spec_float] at precision 53 and maximal exponent 1024, the operations
    the correctly rounded (nearest, ties to even) ones of [SpecFloat]. *)
Module Float64.

Definition prec : Z := 53.
Definition emax : Z := 1024.

Definition float64 : Type := spec_float.

Definition mul : float64 -> float64 -> float64 := SFmul prec emax.
Definition div : float64 -> float64 -> float64 := SFdiv prec emax.
Definition add : float64 -> float64 -> float64 := SFadd prec emax.

(** [x <= y]; false as soon as one side is NaN. *)
Definition leb : float64 -> float64 -> bool := SFleb.

(** The float64 nearest to the integer [n] (exact up to 2^53). *)
Definition ofZ (n : Z) : float64 := binary_normalize prec emax n 0 false.

Definition zero : float64 := S754_zero false.

(** The float64 nearest to the rational [n / d], for [d > 0]; an infinity
    when the rounded value is out of range. *)
Definition ofRatio (n : Z) (d : positive) : float64 :=
  match n with
  | Z0 => zero
  | Zpos p => div (S754_finite false p 0) (S754_finite false d 0)
  | Zneg p => div (S754_finite true p 0) (S754_finite false d 0)
  end.

Definition isInf (x : float64) : bool :=
  match x with S754_infinity _ => true | _ => false end.

End Float64.
Export Float64.

(** ** Go errors

    [error] is Go's interface type: [None] is [nil].  The constructors are
    the concrete errors this file can meet: the [*strconv.NumError] of
    [ParseFloat], the [*exchange.OrderError] that [OnError] looks for with
    [errors.As], an error that wraps another one, and any other error,
    known by its text. *)
Inductive NumErr : Type := ErrSyntax | ErrRange.

Inductive Error : Type :=
| NumError (Func Num : string) (Err : NumErr)
| OrderError (Err : string) (Pair : string) (Quantity : float64)
| WrapError (msg : string) (inner : Error)
| OtherError (msg : string).

Definition error : Type := option Error.

(** [errors.As(err, &orderError)]: the first [*exchange.OrderError] on the
    chain of wrapped errors.  The fields are (Err, Pair, Quantity). *)
Fixpoint asOrderError (e : Error) : option (string * string * float64) :=
  match e with
  | OrderError cause p q => Some (cause, p, q)
  | WrapError _ inner => asOrderError inner
  | NumError _ _ _ => None
  | OtherError _ => None
  end.

(** ** Characters and strings

    A Go string is a sequence of bytes, here a [string] of [ascii].  The
    regular expressions below only contain ASCII literals and the Perl
    classes, which match ASCII only, so matching bytes and matching UTF-8
    runes agree: no byte of a multi-byte rune is below 128. *)
Module Char.

Definition code (c : ascii) : nat := nat_of_ascii c.

Definition between (lo hi : nat) (c : ascii) : bool :=
  (lo <=? code c)%nat && (code c <=? hi)%nat.

(** [0-9] *)
Definition isDigit (c : ascii) : bool := between 48 57 c.
Definition isLower (c : ascii) : bool := between 97 122 c.
Definition isUpper (c : ascii) : bool := between 65 90 c.

(** Perl [\w] is [0-9A-Za-z_]. *)
Definition isWord (c : ascii) : bool :=
  isDigit c || isUpper c || isLower c || (code c =? 95)%nat.

(** Perl [\s] is [\t\n\f\r ]. *)
Definition isSpace (c : ascii) : bool :=
  (code c =? 9)%nat || (code c =? 10)%nat || (code c =? 12)%nat
  || (code c =? 13)%nat || (code c =? 32)%nat.

Definition toUpper (c : ascii) : ascii :=
  if isLower c then ascii_of_nat (code c - 32) else c.

Definition digitVal (c : ascii) : Z := Z.of_nat (code c - 48).

End Char.

Module strings.

(** [strings.ToUpper] on ASCII: bytes of 128 and above are left as they
    are.  The handlers apply it to the capture of [\w+], which is ASCII. *)
Fixpoint ToUpper (s : string) : string :=
  match s with
  | EmptyString => EmptyString
  | String c s' => String (Char.toUpper c) (ToUpper s')
  end.

End strings.

(** ** strconv.ParseFloat

    [ParseFloat(s, 64)] on plain decimal numerals, digits with at most one
    point and at least one digit: the result is the float64 nearest to
    the decimal value (ties to even); when that is out of range the result
    is an infinity with [ErrRange].  Go accepts more (sign, exponent,
    hexadecimal, infinity and NaN spellings); those spellings cannot come out
    of the amount group of the grammars and are answered [ErrSyntax] here
    like every other text. *)
Module strconv.

(** The leading digits of [s], accumulated onto [acc], their number, and
    what follows them. *)
Fixpoint readDigits (acc : Z) (n : nat) (s : string) : Z * nat * string :=
  match s with
  | String c s' =>
      if Char.isDigit c
      then readDigits (10 * acc + Char.digitVal c) (S n) s'
      else (acc, n, s)
  | EmptyString => (acc, n, s)
  end.

(** The numeral as (mantissa, number of digits after the point):
    its value is [mantissa / 10 ^ scale]. *)
Definition readDecimal (s : string) : option (Z * nat) :=
  let '(ip, ni, rest) := readDigits 0 0 s in
  match rest with
  | EmptyString => if (ni =? 0)%nat then None else Some (ip, 0%nat)
  | String "." frac =>
      let '(m, nf, rest') := readDigits ip 0 frac in
      match rest' with
      | EmptyString => if (ni + nf =? 0)%nat then None else Some (m, nf)
      | String _ _ => None
      end
  | String _ _ => None
  end.

Fixpoint pow10 (n : nat) : positive :=
  match n with
  | O => 1%positive
  | S n' => (10 * pow10 n')%positive
  end.

Definition ParseFloat (s : string) : float64 * error :=
  match readDecimal s with
  | None => (zero, Some (NumError "ParseFloat" s ErrSyntax))
  | Some (m, scale) =>
      let f := ofRatio m (pow10 scale) in
      if isInf f then (f, Some (NumError "ParseFloat" s ErrRange))
      else (f, None)
  end.

End strconv.

(** ** regexp

    The regular expressions of the file, in the syntax tree the pattern
    parses to, and leftmost-first matching: the match starts at the first
    position where one exists and, there, is the one a backtracking search
    finds first, every repetition and option being greedy.  [matches]
    lists all the ways an expression matches a prefix of the input, in the
    order backtracking tries them. *)
Module regexp.

Inductive class : Type := PerlSpace | PerlWord | PerlDigit.

Definition inClass (k : class) (c : ascii) : bool :=
  match k with
  | PerlSpace => Char.isSpace c
  | PerlWord => Char.isWord c
  | PerlDigit => Char.isDigit c
  end.

Inductive Regexp : Type :=
| Lit (c : ascii)                                 (* a literal character *)
| Class (k : class)                               (* \s \w \d *)
| Cat (r1 r2 : Regexp)                            (* r1 r2 *)
| Plus (r : Regexp)                               (* r+ *)
| Quest (r : Regexp)                              (* r? *)
| Group (i : nat) (name : string) (r : Regexp).   (* (?P<name>r), i-th group *)

(** The text captured by each group, most recent first. *)
Definition Captures : Type := list (nat * string).

Fixpoint capture (i : nat) (caps : Captures) : option string :=
  match caps with
  | [] => None
  | (j, m) :: caps' => if (i =? j)%nat then Some m else capture i caps'
  end.

(** A way to match: the text consumed, the captures, the rest of the input. *)
Definition result : Type := string * Captures * string.

Definition one (a : ascii) : string := String a EmptyString.

Definition single (ok : ascii -> bool) (s : string) (caps : Captures) : list result :=
  match s with
  | String a s' => if ok a then [(one a, caps, s')] else []
  | EmptyString => []
  end.

Definition andThen (rs : list result) (k : string -> Captures -> list result)
  : list result :=
  flat_map (fun '(m1, c1, s1) =>
              map (fun '(m2, c2, s2) => (m1 +:+ m2, c2, s2)) (k s1 c1)) rs.

(** [r+]: one iteration, then as many more as possible before giving
    them back one by one.  An iteration of the expressions of this file
    consumes a character, so [fuel] above the length of the input is never
    used up. *)
Fixpoint iterate (body : string -> Captures -> list result) (fuel : nat)
    (s : string) (caps : Captures) : list result :=
  match fuel with
  | O => []
  | S fuel' =>
      flat_map (fun '(m1, c1, s1) =>
                  map (fun '(m2, c2, s2) => (m1 +:+ m2, c2, s2))
                      (iterate body fuel' s1 c1)
                  ++ [(m1, c1, s1)])
               (body s caps)
  end.

Fixpoint matches (r : Regexp) (s : string) (caps : Captures) : list result :=
  match r with
  | Lit c => single (Ascii.eqb c) s caps
  | Class k => single (inClass k) s caps
  | Cat r1 r2 => andThen (matches r1 s caps) (matches r2)
  | Plus r1 => iterate (matches r1) (S (String.length s)) s caps
  | Quest r1 => matches r1 s caps ++ [(EmptyString, caps, s)]
  | Group i _ r1 =>
      map (fun '(m, c, s') => (m, (i, m) :: c, s')) (matches r1 s caps)
  end.

Fixpoint NumSubexp (r : Regexp) : nat :=
  match r with
  | Lit _ | Class _ => 0
  | Cat r1 r2 => NumSubexp r1 + NumSubexp r2
  | Plus r1 | Quest r1 => NumSubexp r1
  | Group _ _ r1 => S (NumSubexp r1)
  end.

Fixpoint groupNames (r : Regexp) : list string :=
  match r with
  | Lit _ | Class _ => []
  | Cat r1 r2 => groupNames r1 ++ groupNames r2
  | Plus r1 | Quest r1 => groupNames r1
  | Group _ name r1 => name :: groupNames r1
  end.

(** [SubexpNames]: the name of every group by index; index 0 is the whole
    expression and has the empty name. *)
Definition SubexpNames (r : Regexp) : list string := "" :: groupNames r.

(** The leftmost match: the first start position with a match, and there
    the first of [matches].  Group 0 is the whole match. *)
Fixpoint find (r : Regexp) (s : string) : option Captures :=
  match matches (Group 0 "" r) s [] with
  | (_, caps, _) :: _ => Some caps
  | [] =>
      match s with
      | String _ s' => find r s'
      | EmptyString => None
      end
  end.

(** [FindStringSubmatch]: the texts of the whole match and of every group,
    the empty string for a group that took no part; [nil], here [[]], when
    there is no match. *)
Definition FindStringSubmatch (r : Regexp) (s : string) : list string :=
  match find r s with
  | None => []
  | Some caps =>
      map (fun i => default "" (capture i caps)) (seq 0 (S (NumSubexp r)))
  end.

End regexp.
Import regexp.

Declare Scope regexp_scope.
Delimit Scope regexp_scope with re.
Infix "·" := Cat (at level 60, right associativity) : regexp_scope.

(** [/buy\s+(?P<pair>\w+)\s+(?P<amount>\d+(?:\.\d+)?)(?P<percent>%)?] and
    its sell twin. *)
Definition orderGrammar : Regexp :=
  (Plus (Class PerlSpace)
   · Group 1 "pair" (Plus (Class PerlWord))
   · Plus (Class PerlSpace)
   · Group 2 "amount"
       (Plus (Class PerlDigit) · Quest (Lit "." · Plus (Class PerlDigit)))
   · Quest (Group 3 "percent" (Lit "%")))%re.

Definition buyRegexp : Regexp :=
  (Lit "/" · Lit "b" · Lit "u" · Lit "y" · orderGrammar)%re.

Definition sellRegexp : Regexp :=
  (Lit "/" · Lit "s" · Lit "e" · Lit "l" · Lit "l" · orderGrammar)%re.

(** ** What the expressions match

    [Match r m c c']: the expression [r] matches exactly the text [m],
    taking the captures from [c] to [c']. *)
Inductive Match : Regexp -> string -> Captures -> Captures -> Prop :=
| MatchLit (a : ascii) (c : Captures) :
    Match (Lit a) (one a) c c
| MatchClass (k : class) (a : ascii) (c : Captures) :
    inClass k a = true -> Match (Class k) (one a) c c
| MatchCat (r1 r2 : Regexp) (m1 m2 : string) (c c1 c2 : Captures) :
    Match r1 m1 c c1 -> Match r2 m2 c1 c2 -> Match (Cat r1 r2) (m1 +:+ m2) c c2
| MatchPlusOne (r : Regexp) (m : string) (c c1 : Captures) :
    Match r m c c1 -> Match (Plus r) m c c1
| MatchPlusMore (r : Regexp) (m1 m2 : string) (c c1 c2 : Captures) :
    Match r m1 c c1 -> Match (Plus r) m2 c1 c2 -> Match (Plus r) (m1 +:+ m2) c c2
| MatchQuestSome (r : Regexp) (m : string) (c c1 : Captures) :
    Match r m c c1 -> Match (Quest r) m c c1
| MatchQuestNone (r : Regexp) (c : Captures) :
    Match (Quest r) "" c c
| MatchGroup (i : nat) (name : string) (r : Regexp) (m : string) (c c1 : Captures) :
    Match r m c c1 -> Match (Group i name r) m c ((i, m) :: c1).

(** The least number of characters an expression consumes. *)
Fixpoint minLen (r : Regexp) : nat :=
  match r with
  | Lit _ | Class _ => 1
  | Cat r1 r2 => minLen r1 + minLen r2
  | Plus r1 => minLen r1
  | Quest _ => 0
  | Group _ _ r1 => minLen r1
  end.

(** Every repeated expression consumes a character at each iteration. *)
Fixpoint productive (r : Regexp) : bool :=
  match r with
  | Lit _ | Class _ => true
  | Cat r1 r2 => productive r1 && productive r2
  | Plus r1 => (0 <? minLen r1)%nat && productive r1
  | Quest r1 | Group _ _ r1 => productive r1
  end.

Fixpoint allChars (ok : ascii -> bool) (s : string) : bool :=
  match s with
  | EmptyString => true
  | String a s' => ok a && allChars ok s'
  end.

(** [Trim suf l l']: [l'] lists, in order, the ways of [l] that leave at
    least [suf] unread, with [suf] taken off what they leave. *)
Inductive Trim (suf : string) : list result -> list result -> Prop :=
| TrimNil : Trim suf [] []
| TrimKeep (m : string) (c : Captures) (rest : string) (l l' : list result) :
    Trim suf l l' -> Trim suf ((m, c, rest +:+ suf) :: l) ((m, c, rest) :: l')
| TrimDrop (m : string) (c : Captures) (rest : string) (l l' : list result) :
    (String.length rest < String.length suf)%nat ->
    Trim suf l l' -> Trim suf ((m, c, rest) :: l) l'.

(** The amount group matches a decimal numeral: digits, or digits, a point
    and digits. *)
Definition decimalShape (a : string) : Prop :=
  exists ip fp,
    ip <> "" /\ allChars Char.isDigit ip = true
    /\ (a = ip
        \/ (fp <> "" /\ allChars Char.isDigit fp = true /\ a = ip +:+ "." +:+ fp)).

(** ** Integers

    [int] is 64 bits wide on the 64-bit targets; a conversion between
    integer types wraps to the width of the target type. *)
Module GoInt.

Definition intSize : Z := 64.

Definition wrap (bits z : Z) : Z :=
  ((z + 2 ^ (bits - 1)) mod 2 ^ bits - 2 ^ (bits - 1))%Z.

Definition int (z : Z) : Z := wrap intSize z.
Definition int64 (z : Z) : Z := wrap 64 z.

Definition isInt64 (z : Z) : Prop := (- 2 ^ 63 <= z < 2 ^ 63)%Z.

End GoInt.
Import GoInt.

(** ** Data of the messaging library and of the engine *)

(** [tb.User], [tb.Message] and [tb.Update]: the fields the file reads.
    [Sender] and [Message] are pointers, [None] is [nil]. *)
Record User : Type := { ID : Z }.
Record Message : Type := { Sender : option User; Text : string }.
Record Update : Type := { UpdMessage : option Message }.

(** [tb.Context] of a handler: what [c.Sender()] and [c.Message().Text]
    return.  Handlers only run on updates the filter let through, which
    have a message and a sender. *)
Record Context : Type := { ctxSender : User; ctxText : string }.

(** [tb.Command] *)
Record Command : Type := { CmdText : string; Description : string }.

(** [model.Settings]: the fields the file reads. *)
Record TelegramSettings : Type := { Users : list Z }.
Record Settings : Type := { Pairs : list string; Telegram : TelegramSettings }.

(** The receiver.  Its client, order controller and menu are reached
    through the calls below. *)
Record telegram : Type := { settings : Settings }.

(** Modelled from the spec: [order.Status] is declared in package order,
    outside this file; the spec gives the engine's run state the two values
    Running and Stopped. *)
Inductive Status : Type := StatusRunning | StatusStopped.

Definition Status_eqb (a b : Status) : bool :=
  match a, b with
  | StatusRunning, StatusRunning | StatusStopped, StatusStopped => true
  | _, _ => false
  end.

Inductive SideType : Type := SideTypeBuy | SideTypeSell.

(** [model.Balance]: the two fields the file reads. *)
Record Balance : Type := { Free : float64; Lock : float64 }.

(** [model.Account], known by its only method used here,
    [account.Balance(assetTick, quoteTick)]. *)
Definition Account : Type := string -> string -> Balance * Balance.

(** [model.OrderStatusType]: the four values the file names, and the rest. *)
Inductive OrderStatusType : Type :=
| OrderStatusTypeNew
| OrderStatusTypeFilled
| OrderStatusTypeCanceled
| OrderStatusTypeRejected
| OrderStatusTypeOther (name : string).

(** [model.Order]: the two fields the file reads, and its printed form. *)
Record Order : Type :=
  { OrderPair : string; OrderStatus : OrderStatusType; OrderString : string }.

(** ** Formatted text

    [fmt.Sprintf] is not interpreted: a text is the sequence of the literals
    and of the format applications that the code concatenates. *)
#[warnings="-register-all"] Inductive arg : Type :=
| AString (s : string)
| ASprintf (format : string) (args : list arg)
| AFloat (f : float64)
| AError (e : error)
| AStatus (s : Status)
| AOrder (o : Order)
| AUpdate (u : Update)
| AMessage (m : Message).

Inductive piece : Type :=
| Literal (s : string)
| Sprintf (format : string) (args : list arg).

Definition text : Type := list piece.

(** [strings.Join(lines, sep)] *)
Fixpoint Join (lines : list piece) (sep : string) : text :=
  match lines with
  | [] => []
  | [l] => [l]
  | l :: rest => l :: Literal sep :: Join rest sep
  end.

(** ** Calls that leave the file *)
Inductive call : Type :=
| ClientSend (to : User) (what : text) (menu : bool)
    (* t.client.Send(to, what) or t.client.Send(to, what, t.defaultMenu) *)
| ClientCommands                                (* t.client.Commands() *)
| ClientStart
    (* go t.client.Start(): the poller is launched and the call returns *)
| ControllerAccount                             (* t.orderController.Account() *)
| ControllerLastQuote (p : string)              (* t.orderController.LastQuote(pair) *)
| ControllerPosition (p : string)               (* t.orderController.Position(pair) *)
| ControllerCreateOrderMarketQuote (side : SideType) (p : string) (amount : float64)
| ControllerCreateOrderMarket (side : SideType) (p : string) (amount : float64)
| ControllerStatus                              (* t.orderController.Status() *)
| ControllerStart                               (* t.orderController.Start() *)
| ControllerStop                                (* t.orderController.Stop() *)
| ControllerResults
    (* t.orderController.Results, as the pairs (key, summary.String()) in the
       order a range over the map visits them *)
| SplitAssetQuote (p : string)                  (* exchange.SplitAssetQuote(pair) *)
| RangeQuotes (m : gmap string float64)
    (* the order in which a range visits the entries of the map *)
| LogError (args : list arg)                    (* log.Error(args...) *)
| LogInfo (args : list arg)                     (* log.Info(args...) *)
| Route (txt : string)
    (* the endpoint the library routes an accepted message to, if any *)
| HandlerFailed (err : Error).
    (* a handler returned a non-nil error to the library *)

(** What each call returns; a pair with an [error] is Go's (value, err). *)
Definition response (c : call) : Type :=
  match c with
  | ClientSend _ _ _ => error
  | ClientCommands => list Command * error
  | ClientStart => unit
  | ControllerAccount => Account * error
  | ControllerLastQuote _ => float64 * error
  | ControllerPosition _ => float64 * float64 * error
  | ControllerCreateOrderMarketQuote _ _ _ => Order * error
  | ControllerCreateOrderMarket _ _ _ => Order * error
  | ControllerStatus => Status
  | ControllerStart => unit
  | ControllerStop => unit
  | ControllerResults => list (string * string)
  | SplitAssetQuote _ => string * string
  | RangeQuotes _ => list (string * float64)
  | LogError _ => unit
  | LogInfo _ => unit
  | Route _ => option string
  | HandlerFailed _ => unit
  end.

(** ** Programs: a handler is a finite tree of calls *)
Inductive prog (A : Type) : Type :=
| Ret (a : A)
| Call (c : call) (k : response c -> prog A).
Arguments Ret {A} a.
Arguments Call {A} c k.

Fixpoint bind {A B : Type} (p : prog A) (f : A -> prog B) : prog B :=
  match p with
  | Ret a => f a
  | Call c k => Call c (fun r => bind (k r) f)
  end.

#[global] Instance prog_ret : MRet prog := fun A a => Ret a.
#[global] Instance prog_bind : MBind prog := fun A B f p => bind p f.

Definition call_ (c : call) : prog (response c) := Call c Ret.

(** The environment: any state with an answer to every call. *)
Record World : Type :=
  { state : Type;
    answer : forall c : call, state -> response c * state }.

Inductive event : Type := Event (c : call) (r : response c).

(** Running a program in a world: its result, the calls made with their
    answers, in order, and the state afterwards. *)
Fixpoint run {A : Type} (W : World) (p : prog A) (w : state W)
  : A * list event * state W :=
  match p with
  | Ret a => (a, [], w)
  | Call c k =>
      let '(r, w1) := answer W c w in
      let '(a, tr, w2) := run W (k r) w1 in
      (a, Event c r :: tr, w2)
  end.

(** ** telegram.go *)

(** [if err != nil { log.Error(err) }] *)
Definition logIfError (err : error) : prog unit :=
  match err with
  | Some _ => call_ (LogError [AError err])
  | None => mret tt
  end.

(** The filter given to [tb.NewMiddlewarePoller] in [NewTelegram].  Its
    loop over the allow-list returns true at the first entry equal to
    [int(u.Message.Sender.ID)]: [existsb]. *)
Definition userMiddleware (settings : Settings) (u : Update) : prog bool :=
  match UpdMessage u with
  | None => call_ (LogError [AString "no message, "; AUpdate u]);; mret false
  | Some m =>
      match Sender m with
      | None => call_ (LogError [AString "no message, "; AUpdate u]);; mret false
      | Some sender =>
          if existsb (fun user => (int (ID sender) =? user)%Z)
                     (Users (Telegram settings))
          then mret true
          else call_ (LogError [AString "invalid user, "; AMessage m]);;
               mret false
      end
  end.

(** The loop of [Start] and of [Notify]:
    [for _, id := range users { _, err := t.client.Send(&tb.User{ID: int64(id)}, ...); if err != nil { log.Error(err) } }] *)
Fixpoint sendEach (users : list Z) (what : text) (menu : bool) : prog unit :=
  match users with
  | [] => mret tt
  | user :: rest =>
      err ← call_ (ClientSend {| ID := int64 user |} what menu);
      logIfError err;;
      sendEach rest what menu
  end.

(** [Start]: the poller is launched, then every operator is greeted. *)
Definition Start (t : telegram) : prog unit :=
  call_ ClientStart;;
  sendEach (Users (Telegram (settings t))) [Literal "Bot initialized."] true.

(** [Notify]: the notification fan-out. *)
Definition Notify (t : telegram) (what : text) : prog unit :=
  sendEach (Users (Telegram (settings t))) what false.

Definition errorTitle : string := "🛑 ERROR".

(** [OnError]: the Error Classifier.  An error with order context is
    formatted with its pair and quantity, any other with its description;
    both are broadcast. *)
Definition OnError (t : telegram) (err : error) : prog unit :=
  match err ≫= asOrderError with
  | Some (cause, p, q) =>
      Notify t [Sprintf "%s
		-----
		Pair: %s
		Quantity: %.4f
		-----
		%s" [AString errorTitle; AString p; AFloat q; AString cause]]
  | None =>
      Notify t [Sprintf "%s
-----
%s" [AString errorTitle; AError err]]
  end.

(** [OnOrder]: a title by the status of the order, then the order. *)
Definition OnOrder (t : telegram) (order : Order) : prog unit :=
  let title :=
    match OrderStatus order with
    | OrderStatusTypeFilled =>
        ASprintf "✅ ORDER FILLED - %s" [AString (OrderPair order)]
    | OrderStatusTypeNew =>
        ASprintf "🆕 NEW ORDER - %s" [AString (OrderPair order)]
    | OrderStatusTypeCanceled | OrderStatusTypeRejected =>
        ASprintf "❌ ORDER CANCELED / REJECTED - %s" [AString (OrderPair order)]
    | OrderStatusTypeOther _ => AString ""
    end in
  Notify t [Sprintf "%s
-----
%s" [title; AOrder order]].

(** The first loop of [BalanceHandle]; [inl err] is the early return. *)
Fixpoint balancePairs (t : telegram) (account : Account) (pairs : list string)
    (message : text) (quotesValue : gmap string float64) (total : float64)
  : prog (Error + text * gmap string float64 * float64) :=
  match pairs with
  | [] => mret (inr (message, quotesValue, total))
  | p :: rest =>
      '(assetPair, quotePair) ← call_ (SplitAssetQuote p);
      let '(assetBalance, quoteBalance) := account assetPair quotePair in
      let assetSize := add (Free assetBalance) (Lock assetBalance) in
      let quoteSize := add (Free quoteBalance) (Lock quoteBalance) in
      '(quote, err) ← call_ (ControllerLastQuote p);
      match err with
      | Some e =>
          call_ (LogError [AError err]);;
          OnError t err;;
          mret (inl e)
      | None =>
          let assetValue := mul assetSize quote in
          balancePairs t account rest
            (message ++ [Sprintf "%s: `%.4f` ≅ `%.2f` %s 
" [AString assetPair; AFloat assetSize; AFloat assetValue; AString quotePair]])
            (<[quotePair := quoteSize]> quotesValue)
            (add total assetValue)
      end
  end.

(** The second loop of [BalanceHandle], over the entries of [quotesValue]. *)
Fixpoint balanceQuotes (entries : list (string * float64)) (message : text)
    (total : float64) : text * float64 :=
  match entries with
  | [] => (message, total)
  | (quote, value) :: rest =>
      balanceQuotes rest
        (message ++ [Sprintf "%s: `%.4f`
" [AString quote; AFloat value]])
        (add total value)
  end.

Definition BalanceHandle (t : telegram) (c : Context) : prog error :=
  let message := [Literal "*BALANCE*
"] in
  let quotesValue : gmap string float64 := ∅ in
  let total := zero in
  '(account, err) ← call_ ControllerAccount;
  match err with
  | Some _ =>
      call_ (LogError [AError err]);;
      OnError t err;;
      mret err
  | None =>
      r ← balancePairs t account (Pairs (settings t)) message quotesValue total;
      match r with
      | inl e => mret (Some e)
      | inr (message, quotesValue, total) =>
          entries ← call_ (RangeQuotes quotesValue);
          let '(message, total) := balanceQuotes entries message total in
          let message := message ++ [Sprintf "-----
Total: `%.4f`
" [AFloat total]] in
          err ← call_ (ClientSend (ctxSender c) message false);
          logIfError err;;
          mret err
      end
  end.

Definition HelpHandle (t : telegram) (c : Context) : prog error :=
  '(commands, err) ← call_ ClientCommands;
  match err with
  | Some _ =>
      call_ (LogError [AError err]);;
      OnError t err;;
      mret err
  | None =>
      let lines :=
        map (fun command =>
               Sprintf "/%s - %s"
                 [AString (CmdText command); AString (Description command)])
            commands in
      err ← call_ (ClientSend (ctxSender c) (Join lines "
") false);
      match err with
      | Some _ => call_ (LogError [AError err]);; mret err
      | None => mret None
      end
  end.

Fixpoint profitEach (c : Context) (results : list (string * string)) : prog unit :=
  match results with
  | [] => mret tt
  | (p, summary) :: rest =>
      err ← call_ (ClientSend (ctxSender c)
                     [Sprintf "*PAIR*: `%s`
`%s`" [AString p; AString summary]] false);
      logIfError err;;
      profitEach c rest
  end.

Definition ProfitHandle (t : telegram) (c : Context) : prog error :=
  results ← call_ ControllerResults;
  if (length results =? 0)%nat then
    err ← call_ (ClientSend (ctxSender c) [Literal "No trades registered."] false);
    logIfError err;;
    mret err
  else
    profitEach c results;;
    mret None.

(** [command[name] = match[i]] for every named group; [match] has an entry
    for every index of [names]. *)
Definition namedGroups (names : list string) (match_ : list string)
  : gmap string string :=
  fold_left
    (fun command '(i, name) =>
       if negb (i =? 0)%nat && negb (name =? "")%string
       then <[name := nth i match_ ""]> command
       else command)
    (combine (seq 0 (length names)) names) ∅.

(** [command[key]], the empty string when the key is absent. *)
Definition at_ (command : gmap string string) (key : string) : string :=
  default "" (command !! key).

Definition buyUsage : string := "Invalid command.
Examples of usage:
`/buy BTCUSDT 100`

`/buy BTCUSDT 50%`".

Definition sellUsage : string := "Invalid command.
Example of usage:
`/sell BTCUSDT 100`

`/sell BTCUSDT 50%`".

Definition BuyHandle (t : telegram) (c : Context) : prog error :=
  let match_ := FindStringSubmatch buyRegexp (ctxText c) in
  if (length match_ =? 0)%nat then
    err ← call_ (ClientSend (ctxSender c) [Literal buyUsage] false);
    logIfError err;;
    mret err
  else
    let command := namedGroups (SubexpNames buyRegexp) match_ in
    let pairName := strings.ToUpper (at_ command "pair") in
    let '(amount, err) := strconv.ParseFloat (at_ command "amount") in
    match err with
    | Some _ =>
        call_ (LogError [AError err]);;
        OnError t err;;
        mret err
    | None =>
        if leb amount zero then
          err ← call_ (ClientSend (ctxSender c) [Literal "Invalid amount"] false);
          logIfError err;;
          mret err
        else
          (* [inl err] is the early return of the percent branch *)
          r ← (if negb (at_ command "percent" =? "")%string then
                 '(_, quote, err) ← call_ (ControllerPosition pairName);
                 match err with
                 | Some e =>
                     call_ (LogError [AError err]);;
                     OnError t err;;
                     mret (inl e)
                 | None => mret (inr (div (mul amount quote) (ofZ 100)))
                 end
               else mret (inr amount));
          match r with
          | inl e => mret (Some e)
          | inr amount =>
              '(order, err) ← call_ (ControllerCreateOrderMarketQuote
                                       SideTypeBuy pairName amount);
              match err with
              | Some _ => mret err
              | None =>
                  call_ (LogInfo [AString "[TELEGRAM]: BUY ORDER CREATED: ";
                                  AOrder order]);;
                  mret None
              end
          end
    end.

Definition SellHandle (t : telegram) (c : Context) : prog error :=
  let match_ := FindStringSubmatch sellRegexp (ctxText c) in
  if (length match_ =? 0)%nat then
    err ← call_ (ClientSend (ctxSender c) [Literal sellUsage] false);
    logIfError err;;
    mret err
  else
    let command := namedGroups (SubexpNames sellRegexp) match_ in
    let pairName := strings.ToUpper (at_ command "pair") in
    let '(amount, err) := strconv.ParseFloat (at_ command "amount") in
    match err with
    | Some _ =>
        call_ (LogError [AError err]);;
        OnError t err;;
        mret err
    | None =>
        if leb amount zero then
          err ← call_ (ClientSend (ctxSender c) [Literal "Invalid amount"] false);
          logIfError err;;
          mret err
        else if negb (at_ command "percent" =? "")%string then
          '(asset, _, err) ← call_ (ControllerPosition pairName);
          match err with
          | Some _ => mret err
          | None =>
              let amount := div (mul amount asset) (ofZ 100) in
              '(order, err) ← call_ (ControllerCreateOrderMarket
                                       SideTypeSell pairName amount);
              match err with
              | Some _ => mret err
              | None =>
                  call_ (LogInfo [AString "[TELEGRAM]: SELL ORDER CREATED: ";
                                  AOrder order]);;
                  mret None
              end
          end
        else
          '(order, err) ← call_ (ControllerCreateOrderMarketQuote
                                   SideTypeSell pairName amount);
          match err with
          | Some _ => mret err
          | None =>
              call_ (LogInfo [AString "[TELEGRAM]: SELL ORDER CREATED: ";
                              AOrder order]);;
              mret None
          end
    end.

Definition StatusHandle (t : telegram) (c : Context) : prog error :=
  status ← call_ ControllerStatus;
  err ← call_ (ClientSend (ctxSender c) [Sprintf "Status: `%s`" [AStatus status]] false);
  logIfError err;;
  mret err.

Definition StartHandle (t : telegram) (c : Context) : prog error :=
  status ← call_ ControllerStatus;
  if Status_eqb status StatusRunning then
    err ← call_ (ClientSend (ctxSender c) [Literal "Bot is already running."] true);
    logIfError err;;
    mret err
  else
    call_ ControllerStart;;
    err ← call_ (ClientSend (ctxSender c) [Literal "Bot started."] true);
    logIfError err;;
    mret err.

Definition StopHandle (t : telegram) (c : Context) : prog error :=
  status ← call_ ControllerStatus;
  if Status_eqb status StatusStopped then
    err ← call_ (ClientSend (ctxSender c) [Literal "Bot is already stopped."] true);
    logIfError err;;
    mret err
  else
    call_ ControllerStop;;
    err ← call_ (ClientSend (ctxSender c) [Literal "Bot stopped."] true);
    logIfError err;;
    mret err.

(** The endpoints registered with [client.Handle] in [NewTelegram]. *)
Definition handlers (t : telegram) : list (string * (Context -> prog error)) :=
  [ ("/help", HelpHandle t);
    ("/start", StartHandle t);
    ("/stop", StopHandle t);
    ("/status", StatusHandle t);
    ("/balance", BalanceHandle t);
    ("/profit", ProfitHandle t);
    ("/buy", BuyHandle t);
    ("/sell", SellHandle t) ].

Fixpoint handlerOf (table : list (string * (Context -> prog error)))
    (endpoint : string) : option (Context -> prog error) :=
  match table with
  | [] => None
  | (name, h) :: rest =>
      if (name =? endpoint)%string then Some h else handlerOf rest endpoint
  end.

(** One inbound update through the poller of [NewTelegram]: the middleware
    poller passes the update on only when the filter returns true; the
    library then routes the message to one of the registered endpoints and
    runs its handler; a non-nil error of the handler goes back to the
    library. *)
Definition dispatch (t : telegram) (u : Update) : prog unit :=
  accepted ← userMiddleware (settings t) u;
  if (accepted : bool) then
    match UpdMessage u with
    | Some {| Sender := Some sender; Text := txt |} =>
        endpoint ← call_ (Route txt);
        match endpoint ≫= handlerOf (handlers t) with
        | Some h =>
            err ← h {| ctxSender := sender; ctxText := txt |};
            match err with
            | Some e => call_ (HandlerFailed e)
            | None => Ret tt
            end
        | None => Ret tt
        end
    | _ => Ret tt
    end
  else Ret tt.

(** ** The Command Grammar Parser

    The part of [BuyHandle] and [SellHandle] before the first engine call,
    as a function of the text: the match, the named groups, the upper-cased
    pair, the amount and its two checks, the percent marker.  [NoMatch] and
    [AmountError] are the spec's ParseError, [InvalidAmount] its
    ValidationError. *)
Inductive SizingMode : Type := Absolute | PercentOfPosition.

Record ParsedOrderIntent : Type :=
  { intentPair : string; intentAmount : float64; sizingMode : SizingMode }.

Inductive ParseFailure : Type :=
| NoMatch
| AmountError (e : Error)
| InvalidAmount.

Definition parseOrder (re : Regexp) (txt : string)
  : ParseFailure + ParsedOrderIntent :=
  let match_ := FindStringSubmatch re txt in
  if (length match_ =? 0)%nat then inl NoMatch
  else
    let command := namedGroups (SubexpNames re) match_ in
    let pairName := strings.ToUpper (at_ command "pair") in
    let '(amount, err) := strconv.ParseFloat (at_ command "amount") in
    match err with
    | Some e => inl (AmountError e)
    | None =>
        if leb amount zero then inl InvalidAmount
        else inr {| intentPair := pairName;
                    intentAmount := amount;
                    sizingMode :=
                      if negb (at_ command "percent" =? "")%string
                      then PercentOfPosition else Absolute |}
    end.

(** The three ways a handler ends without an order, and the Order Sizing
    Resolver: the rest of [BuyHandle] and of [SellHandle] once the intent is
    parsed.  The handlers are shown below to be made of these parts. *)

(** A direct reply: send to the requesting sender, log a failed send,
    return the error of the send. *)
Definition reply (to : User) (what : text) (menu : bool) : prog error :=
  err ← call_ (ClientSend to what menu);
  logIfError err;;
  mret err.

(** An error handed to [OnError]: log it, broadcast it, return it. *)
Definition escalate (t : telegram) (e : Error) : prog error :=
  call_ (LogError [AError (Some e)]);;
  OnError t (Some e);;
  mret (Some e).

Definition resolveBuy (t : telegram) (i : ParsedOrderIntent) : prog error :=
  r ← (match sizingMode i with
       | PercentOfPosition =>
           '(_, quote, err) ← call_ (ControllerPosition (intentPair i));
           match err with
           | Some e =>
               call_ (LogError [AError err]);;
               OnError t err;;
               mret (inl e)
           | None => mret (inr (div (mul (intentAmount i) quote) (ofZ 100)))
           end
       | Absolute => mret (inr (intentAmount i))
       end);
  match r with
  | inl e => mret (Some e)
  | inr amount =>
      '(order, err) ← call_ (ControllerCreateOrderMarketQuote
                               SideTypeBuy (intentPair i) amount);
      match err with
      | Some _ => mret err
      | None =>
          call_ (LogInfo [AString "[TELEGRAM]: BUY ORDER CREATED: "; AOrder order]);;
          mret None
      end
  end.

Definition resolveSell (t : telegram) (i : ParsedOrderIntent) : prog error :=
  match sizingMode i with
  | PercentOfPosition =>
      '(asset, _, err) ← call_ (ControllerPosition (intentPair i));
      match err with
      | Some _ => mret err
      | None =>
          '(order, err) ← call_ (ControllerCreateOrderMarket SideTypeSell
                                   (intentPair i)
                                   (div (mul (intentAmount i) asset) (ofZ 100)));
          match err with
          | Some _ => mret err
          | None =>
              call_ (LogInfo [AString "[TELEGRAM]: SELL ORDER CREATED: "; AOrder order]);;
              mret None
          end
      end
  | Absolute =>
      '(order, err) ← call_ (ControllerCreateOrderMarketQuote SideTypeSell
                               (intentPair i) (intentAmount i));
      match err with
      | Some _ => mret err
      | None =>
          call_ (LogInfo [AString "[TELEGRAM]: SELL ORDER CREATED: "; AOrder order]);;
          mret None
      end
  end.

Definition resolveOf (side : SideType) : telegram -> ParsedOrderIntent -> prog error :=
  match side with SideTypeBuy => resolveBuy | SideTypeSell => resolveSell end.

(** The grammar, the handler and the usage text of each trading direction. *)
Definition grammarOf (side : SideType) : Regexp :=
  match side with SideTypeBuy => buyRegexp | SideTypeSell => sellRegexp end.

Definition handleOf (side : SideType) : telegram -> Context -> prog error :=
  match side with SideTypeBuy => BuyHandle | SideTypeSell => SellHandle end.

Definition usageOf (side : SideType) : string :=
  match side with SideTypeBuy => buyUsage | SideTypeSell => sellUsage end.

(** The text [OnError] broadcasts for an error. *)
Definition errorMessage (err : error) : text :=
  match err ≫= asOrderError with
  | Some (cause, p, q) =>
      [Sprintf "%s
		-----
		Pair: %s
		Quantity: %.4f
		-----
		%s" [AString errorTitle; AString p; AFloat q; AString cause]]
  | None =>
      [Sprintf "%s
-----
%s" [AString errorTitle; AError err]]
  end.

(** ** Observations on a run *)
Definition resultOf {A S : Type} (x : A * list event * S) : A := fst (fst x).
Definition traceOf {A S : Type} (x : A * list event * S) : list event := snd (fst x).
Definition finalOf {A S : Type} (x : A * list event * S) : S := snd x.

Definition callOf (e : event) : call :=
  match e with Event c _ => c end.

(** The messages handed to the client, with their recipient. *)
Definition sendOf (e : event) : option (User * text) :=
  match e with
  | Event (ClientSend to what _) _ => Some (to, what)
  | _ => None
  end.

Definition sends (tr : list event) : list (User * text) := omap sendOf tr.

(** The calls to the order controller. *)
Definition isEngineCall (c : call) : bool :=
  match c with
  | ControllerAccount | ControllerLastQuote _ | ControllerPosition _
  | ControllerCreateOrderMarketQuote _ _ _ | ControllerCreateOrderMarket _ _ _
  | ControllerStatus | ControllerStart | ControllerStop | ControllerResults => true
  | _ => false
  end.

Definition engineCalls (tr : list event) : list call :=
  List.filter isEngineCall (map callOf tr).

Definition isSend (c : call) : bool :=
  match c with ClientSend _ _ _ => true | _ => false end.

Definition isLogError (c : call) : bool :=
  match c with LogError _ => true | _ => false end.

(** The error of every account or quote lookup of the run, in order. *)
Definition lookupOf (e : event) : option error :=
  match e with
  | Event ControllerAccount (_, err) => Some err
  | Event (ControllerLastQuote _) (_, err) => Some err
  | _ => None
  end.

Definition lookups (tr : list event) : list error := omap lookupOf tr.

(** The calls that change the run state of the engine. *)
Definition togglesRunState (c : call) : bool :=
  match c with ControllerStart | ControllerStop => true | _ => false end.

(** Modelled from the spec: the order controller is outside this file.
    The spec gives the engine a run state that [runState()] reads, that
    [start()] moves to Running and [stop()] to Stopped; no other call of
    this file changes it. *)
Record EngineSpec (W : World) (runState : state W -> Status) : Prop :=
  { status_reads :
      forall w, fst (answer W ControllerStatus w) = runState w;
    start_runs :
      forall w, runState (snd (answer W ControllerStart w)) = StatusRunning;
    stop_stops :
      forall w, runState (snd (answer W ControllerStop w)) = StatusStopped;
    others_keep :
      forall c w, togglesRunState c = false ->
                  runState (snd (answer W c w)) = runState w }.

(** A program none of whose calls changes the run state. *)
Fixpoint neverToggles {A : Type} (p : prog A) : Prop :=
  match p with
  | Ret _ => True
  | Call c k => togglesRunState c = false /\ forall r, neverToggles (k r)
  end.

(** The decision of the filter, without its log. *)
Definition accepts (settings : Settings) (u : Update) : bool :=
  match UpdMessage u with
  | Some {| Sender := Some sender |} =>
      existsb (fun user => (int (ID sender) =? user)%Z) (Users (Telegram settings))
  | _ => false
  end.

(** ** A scripted environment, for the examples

    Every call is answered from a fixed script; the state is the run state
    of the engine. *)
Record Script : Type :=
  { sendError : User -> error;
    commandsOf : list Command * error;
    accountOf : Account * error;
    lastQuoteOf : string -> float64 * error;
    positionOf : string -> float64 * float64 * error;
    orderOf : SideType -> string -> float64 -> Order * error;
    resultsOf : list (string * string);
    splitOf : string -> string * string;
    routeOf : string -> option string }.

Definition scripted (sc : Script) : World :=
  {| state := Status;
     answer := fun c =>
       match c as c0 return Status -> response c0 * Status with
       | ClientSend to _ _ => fun s => (sendError sc to, s)
       | ClientCommands => fun s => (commandsOf sc, s)
       | ClientStart => fun s => (tt, s)
       | ControllerAccount => fun s => (accountOf sc, s)
       | ControllerLastQuote p => fun s => (lastQuoteOf sc p, s)
       | ControllerPosition p => fun s => (positionOf sc p, s)
       | ControllerCreateOrderMarketQuote side p a => fun s => (orderOf sc side p a, s)
       | ControllerCreateOrderMarket side p a => fun s => (orderOf sc side p a, s)
       | ControllerStatus => fun s => (s, s)
       | ControllerStart => fun s => (tt, StatusRunning)
       | ControllerStop => fun s => (tt, StatusStopped)
       | ControllerResults => fun s => (resultsOf sc, s)
       | SplitAssetQuote p => fun s => (splitOf sc p, s)
       | RangeQuotes m => fun s => (map_to_list m, s)
       | LogError _ => fun s => (tt, s)
       | LogInfo _ => fun s => (tt, s)
       | Route txt => fun s => (routeOf sc txt, s)
       | HandlerFailed _ => fun s => (tt, s)
       end |}.

Definition noBalance : Balance := {| Free := zero; Lock := zero |}.

(** Everything succeeds: the position is 1.5 of the asset and 1000 of the
    quote currency, every message is routed to its first word. *)
Definition calm : Script :=
  {| sendError := fun _ => None;
     commandsOf := ([], None);
     accountOf := (fun _ _ => (noBalance, noBalance), None);
     lastQuoteOf := fun _ => (ofZ 1, None);
     positionOf := fun _ => (ofRatio 3 2, ofZ 1000, None);
     orderOf := fun _ p _ => ({| OrderPair := p; OrderStatus := OrderStatusTypeNew;
                                 OrderString := "order" |}, None);
     resultsOf := [];
     splitOf := fun p => (p, "USDT");
     routeOf := fun txt => Some txt |}.

Definition engineDown : Error := OtherError "engine unavailable".

(** As [calm], but the position lookup fails. *)
Definition positionDown : Script :=
  {| sendError := sendError calm;
     commandsOf := commandsOf calm;
     accountOf := accountOf calm;
     lastQuoteOf := lastQuoteOf calm;
     positionOf := fun _ => (zero, zero, Some engineDown);
     orderOf := orderOf calm;
     resultsOf := resultsOf calm;
     splitOf := splitOf calm;
     routeOf := routeOf calm |}.

(** As [calm], but every send to operator 2 fails. *)
Definition unreachable2 : Script :=
  {| sendError := fun to =>
       if (ID to =? 2)%Z then Some (OtherError "unreachable") else None;
     commandsOf := commandsOf calm;
     accountOf := accountOf calm;
     lastQuoteOf := lastQuoteOf calm;
     positionOf := positionOf calm;
     orderOf := orderOf calm;
     resultsOf := resultsOf calm;
     splitOf := splitOf calm;
     routeOf := routeOf calm |}.

Definition operators (ids : list Z) : telegram :=
  {| settings := {| Pairs := ["BTCUSDT"]; Telegram := {| Users := ids |} |} |}.

Definition from (id : Z) (txt : string) : Context :=
  {| ctxSender := {| ID := id |}; ctxText := txt |}.

Fixpoint zeros (n : nat) : string :=
  match n with
  | O => ""
  | S n' => String "0" (zeros n')
  end.


(** ** Further observations on a run *)

(** The error of every order submission of the run, in order. *)
Definition submissionOf (e : event) : option error :=
  match e with
  | Event (ControllerCreateOrderMarketQuote _ _ _) (_, err) => Some err
  | Event (ControllerCreateOrderMarket _ _ _) (_, err) => Some err
  | _ => None
  end.

Definition submissions (tr : list event) : list error := omap submissionOf tr.

(** What the client answered to every send of the run, in order. *)
Definition deliveryOf (e : event) : option error :=
  match e with
  | Event (ClientSend _ _ _) err => Some err
  | _ => None
  end.

Definition deliveries (tr : list event) : list error := omap deliveryOf tr.

(** Whether the default menu is attached to each message sent. *)
Definition menuOf (e : event) : option bool :=
  match e with
  | Event (ClientSend _ _ menu) _ => Some menu
  | _ => None
  end.

(** A program all of whose messages go to recipients in [ok]. *)
Fixpoint sendsOnlyTo {A : Type} (ok : User -> Prop) (p : prog A) : Prop :=
  match p with
  | Ret _ => True
  | Call c k =>
      match c with
      | ClientSend to _ _ => ok to
      | _ => True
      end
      /\ forall r, sendsOnlyTo ok (k r)
  end.

(** The requesting sender and the operators of the allow-list. *)
Definition senderOrOperator (t : telegram) (sender : User) (to : User) : Prop :=
  to = sender
  \/ In to (map (fun user => {| ID := int64 user |}) (Users (Telegram (settings t)))).

(** A finite float64 above zero. *)
Definition isPositive (x : float64) : Prop :=
  exists m e, x = S754_finite false m e.

(** The command word each grammar starts with. *)
Definition keywordOf (side : SideType) : string :=
  match side with
  | SideTypeBuy => "/buy"
  | SideTypeSell => "/sell"
  end.

(** What is left of the input goes on with no character of [ok]. *)
Definition stopsAt (ok : ascii -> bool) (rest : string) : Prop :=
  match rest with
  | EmptyString => True
  | String x _ => ok x = false
  end.

(** What is left of the input goes on with neither a digit nor a percent
    sign: the match could not have been longer. *)
Definition endsAmount (rest : string) : Prop :=
  stopsAt (fun x => Char.isDigit x || Ascii.eqb "%" x) rest.

(** The way the matcher prefers, when there is one, satisfies [P]. *)
Definition headSat (P : result -> Prop) (l : list result) : Prop :=
  match l with
  | [] => True
  | x :: _ => P x
  end.

(** The step of the loop over [SubexpNames] in the order handlers. *)
Definition groupStep (match_ : list string) (command : gmap string string)
    (entry : nat * string) : gmap string string :=
  let '(i, name) := entry in
  if negb (i =? 0)%nat && negb (name =? "")%string
  then <[name := nth i match_ ""]> command
  else command.

(** The line of the balance message for one entry of [quotesValue]. *)
Definition quoteLine (entry : string * float64) : piece :=
  Sprintf "%s: `%.4f`
" [AString (fst entry); AFloat (snd entry)].

(** Two pairs of the settings, both quoted in USDT, and one operator. *)
Definition twoPairs : telegram :=
  {| settings := {| Pairs := ["BTCUSDT"; "ETHUSDT"]; Telegram := {| Users := [1%Z] |} |} |}.

(** * Running programs *)

Lemma run_bind {A B : Type} (W : World) (p : prog A) (f : A -> prog B) (w : state W) :
  run W (bind p f) w =
    let '(a, tr1, w1) := run W p w in
    let '(b, tr2, w2) := run W (f a) w1 in
    (b, tr1 ++ tr2, w2).
Proof.
  revert w.
  induction p as [a | c k IH]; intros w; cbn [bind run].
  - destruct (run W (f a) w) as [[b tr2] w2]. reflexivity.
  - destruct (answer W c w) as [r w1]. rewrite IH.
    destruct (run W (k r) w1) as [[a tr1] w1'].
    destruct (run W (f a) w1') as [[b tr2] w2]. reflexivity.
Qed.

Lemma sends_app (tr1 tr2 : list event) : sends (tr1 ++ tr2) = sends tr1 ++ sends tr2.
Proof. unfold sends. apply omap_app. Qed.

Lemma engineCalls_app (tr1 tr2 : list event) :
  engineCalls (tr1 ++ tr2) = engineCalls tr1 ++ engineCalls tr2.
Proof. unfold engineCalls. rewrite map_app. apply List.filter_app. Qed.

Lemma lookups_app (tr1 tr2 : list event) : lookups (tr1 ++ tr2) = lookups tr1 ++ lookups tr2.
Proof. unfold lookups. apply omap_app. Qed.

(** Unfolds the monad operations and runs the calls at the head of a program. *)
Ltac run_step :=
  unfold mbind, prog_bind, mret, prog_ret, call_ in *; cbn [run bind response] in *.

(** Splits the run of the first sequence in the goal into its two halves. *)
Ltac split_bind := rewrite run_bind.

Ltac observe :=
  unfold resultOf, traceOf, finalOf, sends, engineCalls, lookups in *;
  cbn [fst snd omap list_omap map List.filter callOf sendOf lookupOf isEngineCall app] in *.

(** ** Sending to one recipient after another *)

Lemma logIfError_run (W : World) (err : error) (w : state W) :
  sends (traceOf (run W (logIfError err) w)) = []
  /\ engineCalls (traceOf (run W (logIfError err) w)) = []
  /\ lookups (traceOf (run W (logIfError err) w)) = []
  /\ Forall (fun e => isLogError (callOf e) = true) (traceOf (run W (logIfError err) w)).
Proof.
  destruct err as [e|]; unfold logIfError; run_step.
  - destruct (answer W (LogError [AError (Some e)]) w) as [[] w1].
    observe. repeat split; auto.
  - observe. repeat split; auto.
Qed.

Lemma sendEach_sends (W : World) (users : list Z) (what : text) (menu : bool)
    (w : state W) :
  sends (traceOf (run W (sendEach users what menu) w))
  = map (fun user => ({| ID := int64 user |}, what)) users.
Proof.
  revert w. induction users as [|user rest IH]; intros w; cbn [sendEach map].
  - reflexivity.
  - run_step.
    destruct (answer W (ClientSend {| ID := int64 user |} what menu) w) as [err w1].
    split_bind.
    pose proof (logIfError_run W err w1) as (Hs & _).
    destruct (run W (logIfError err) w1) as [[[] tr1] w2].
    specialize (IH w2).
    destruct (run W (sendEach rest what menu) w2) as [[[] tr2] w3].
    unfold traceOf in *. cbn [fst snd] in *.
    unfold sends in *. cbn [omap list_omap sendOf]. rewrite omap_app.
    rewrite Hs, IH. reflexivity.
Qed.

(** ** The handlers of /buy and /sell, by the outcome of parsing *)

Lemma handle_parse (side : SideType) (t : telegram) (c : Context) :
  handleOf side t c =
    match parseOrder (grammarOf side) (ctxText c) with
    | inl NoMatch => reply (ctxSender c) [Literal (usageOf side)] false
    | inl (AmountError e) => escalate t e
    | inl InvalidAmount => reply (ctxSender c) [Literal "Invalid amount"] false
    | inr i => resolveOf side t i
    end.
Proof.
  destruct side; cbn [handleOf grammarOf usageOf resolveOf];
    unfold BuyHandle, SellHandle, parseOrder.
  - destruct (length (FindStringSubmatch buyRegexp (ctxText c)) =? 0)%nat; [reflexivity|].
    destruct (strconv.ParseFloat _) as [amount [e|]]; [reflexivity|].
    destruct (leb amount zero); [reflexivity|].
    unfold resolveBuy, escalate. cbn [sizingMode intentPair intentAmount].
    destruct (negb _); reflexivity.
  - destruct (length (FindStringSubmatch sellRegexp (ctxText c)) =? 0)%nat; [reflexivity|].
    destruct (strconv.ParseFloat _) as [amount [e|]]; [reflexivity|].
    destruct (leb amount zero); [reflexivity|].
    unfold resolveSell. cbn [sizingMode intentPair intentAmount].
    destruct (negb _); reflexivity.
Qed.

Lemma sendEach_only_sends_and_logs (W : World) (users : list Z) (what : text)
    (menu : bool) (w : state W) :
  Forall (fun e => isSend (callOf e) = true \/ isLogError (callOf e) = true)
         (traceOf (run W (sendEach users what menu) w)).
Proof.
  revert w. induction users as [|user rest IH]; intros w; cbn [sendEach].
  - constructor.
  - run_step.
    destruct (answer W (ClientSend {| ID := int64 user |} what menu) w) as [err w1].
    split_bind.
    pose proof (logIfError_run W err w1) as (_ & _ & _ & Hl).
    destruct (run W (logIfError err) w1) as [[[] tr1] w2].
    specialize (IH w2).
    destruct (run W (sendEach rest what menu) w2) as [[[] tr2] w3].
    unfold traceOf in *. cbn [fst snd] in *.
    constructor; [left; reflexivity|].
    apply Forall_app. split; [|exact IH].
    eapply Forall_impl; [exact Hl|]. intros e He. right. exact He.
Qed.

Lemma no_engine_call (tr : list event) :
  Forall (fun e => isSend (callOf e) = true \/ isLogError (callOf e) = true) tr ->
  engineCalls tr = [] /\ lookups tr = [].
Proof.
  induction 1 as [|e tr He _ [IH1 IH2]]; [split; reflexivity|].
  unfold engineCalls, lookups in *. cbn [map List.filter omap list_omap].
  destruct e as [c r]. cbn [callOf] in *.
  destruct c; cbn in He; destruct He as [He|He]; try discriminate He;
    cbn [isEngineCall lookupOf]; split; assumption.
Qed.

Lemma OnError_Notify (t : telegram) (err : error) :
  OnError t err = Notify t (errorMessage err).
Proof.
  unfold OnError, errorMessage.
  destruct (err ≫= asOrderError) as [[[cause p] q]|]; reflexivity.
Qed.

(** The recipients of a broadcast: every operator of the allow-list. *)
Lemma Notify_run (W : World) (t : telegram) (what : text) (w : state W) :
  sends (traceOf (run W (Notify t what) w))
    = map (fun user => ({| ID := int64 user |}, what)) (Users (Telegram (settings t)))
  /\ engineCalls (traceOf (run W (Notify t what) w)) = []
  /\ lookups (traceOf (run W (Notify t what) w)) = [].
Proof.
  unfold Notify. split; [apply sendEach_sends|].
  apply no_engine_call, sendEach_only_sends_and_logs.
Qed.

Lemma reply_run (W : World) (to : User) (what : text) (menu : bool) (w : state W) :
  sends (traceOf (run W (reply to what menu) w)) = [(to, what)]
  /\ engineCalls (traceOf (run W (reply to what menu) w)) = []
  /\ lookups (traceOf (run W (reply to what menu) w)) = []
  /\ resultOf (run W (reply to what menu) w) = fst (answer W (ClientSend to what menu) w).
Proof.
  unfold reply. run_step.
  destruct (answer W (ClientSend to what menu) w) as [err w1].
  cbn [response] in *. split_bind.
  pose proof (logIfError_run W err w1) as (Hs & He & Hl & _).
  destruct (run W (logIfError err) w1) as [[[] tr1] w2].
  cbn [run]. unfold traceOf, resultOf in *. cbn [fst snd] in *.
  rewrite app_nil_r.
  unfold sends, engineCalls, lookups in *.
  cbn [omap list_omap sendOf lookupOf map List.filter callOf isEngineCall].
  rewrite Hs, He, Hl. repeat split; reflexivity.
Qed.

Lemma escalate_run (W : World) (t : telegram) (e : Error) (w : state W) :
  sends (traceOf (run W (escalate t e) w))
    = map (fun user => ({| ID := int64 user |}, errorMessage (Some e)))
          (Users (Telegram (settings t)))
  /\ engineCalls (traceOf (run W (escalate t e) w)) = []
  /\ lookups (traceOf (run W (escalate t e) w)) = []
  /\ resultOf (run W (escalate t e) w) = Some e.
Proof.
  unfold escalate. run_step.
  destruct (answer W (LogError [AError (Some e)]) w) as [[] w1].
  cbn [response] in *. split_bind.
  rewrite OnError_Notify.
  pose proof (Notify_run W t (errorMessage (Some e)) w1) as (Hs & He & Hl).
  destruct (run W (Notify t (errorMessage (Some e))) w1) as [[[] tr1] w2].
  cbn [run]. unfold traceOf, resultOf in *. cbn [fst snd] in *.
  rewrite app_nil_r.
  unfold sends, engineCalls, lookups in *.
  cbn [omap list_omap sendOf lookupOf map List.filter callOf isEngineCall].
  rewrite Hs, He, Hl. repeat split; reflexivity.
Qed.

(** * The claims *)

(** C1.  Order sizing.  When the text of a buy or sell command parses to an
    intent with pair [P] and amount [A], the calls to the engine are: for a
    buy in Absolute mode, one market order by quote for [A]; for a buy in
    PercentOfPosition mode, the position lookup and then, the lookup
    succeeding with quote quantity [quote], one market order by quote for
    [A * quote / 100]; for a sell in PercentOfPosition mode, the position
    lookup and then one market order by asset for [A * asset / 100]; for a
    sell in Absolute mode, one market order by quote for [A]. *)
Theorem C1_order_sizing (W : World) (t : telegram) (c : Context) (w : state W)
    (side : SideType) (P : string) (A : float64) (mode : SizingMode) :
  parseOrder (grammarOf side) (ctxText c)
    = inr {| intentPair := P; intentAmount := A; sizingMode := mode |} ->
  let calls := engineCalls (traceOf (run W (handleOf side t c) w)) in
  match side, mode with
  | SideTypeBuy, Absolute =>
      calls = [ControllerCreateOrderMarketQuote SideTypeBuy P A]
  | SideTypeBuy, PercentOfPosition =>
      forall asset quote w1,
        answer W (ControllerPosition P) w = ((asset, quote, None), w1) ->
        calls = [ControllerPosition P;
                 ControllerCreateOrderMarketQuote SideTypeBuy P
                   (div (mul A quote) (ofZ 100))]
  | SideTypeSell, PercentOfPosition =>
      forall asset quote w1,
        answer W (ControllerPosition P) w = ((asset, quote, None), w1) ->
        calls = [ControllerPosition P;
                 ControllerCreateOrderMarket SideTypeSell P
                   (div (mul A asset) (ofZ 100))]
  | SideTypeSell, Absolute =>
      calls = [ControllerCreateOrderMarketQuote SideTypeSell P A]
  end.
Proof.
  intros Hparse calls. subst calls. rewrite handle_parse, Hparse.
  destruct side, mode; cbn [resolveOf]; unfold resolveBuy, resolveSell;
    cbn [sizingMode intentPair intentAmount]; run_step.
  - destruct (answer W (ControllerCreateOrderMarketQuote SideTypeBuy P A) w)
      as [[order [e|]] w1]; cbn [run]; [reflexivity|].
    destruct (answer W (LogInfo _) w1) as [[] w2]. reflexivity.
  - intros asset quote w1 Hpos. rewrite Hpos. cbn [run bind].
    destruct (answer W (ControllerCreateOrderMarketQuote SideTypeBuy P _) w1)
      as [[order [e|]] w2]; cbn [run]; [reflexivity|].
    destruct (answer W (LogInfo _) w2) as [[] w3]. reflexivity.
  - destruct (answer W (ControllerCreateOrderMarketQuote SideTypeSell P A) w)
      as [[order [e|]] w1]; cbn [run]; [reflexivity|].
    destruct (answer W (LogInfo _) w1) as [[] w2]. reflexivity.
  - intros asset quote w1 Hpos. rewrite Hpos. cbn [run bind].
    destruct (answer W (ControllerCreateOrderMarket SideTypeSell P _) w1)
      as [[order [e|]] w2]; cbn [run]; [reflexivity|].
    destruct (answer W (LogInfo _) w2) as [[] w3]. reflexivity.
Qed.

(** C1 at the two sizing examples of the spec: a buy of 20% with a quote
    quantity of 1000 asks for 200 by quote, a sell of 50% with an asset
    quantity of 1.5 asks for 0.75 by asset. *)
Lemma C1_order_sizing_witness :
  (parseOrder buyRegexp "/buy btcusdt 20%"
     = inr {| intentPair := "BTCUSDT"; intentAmount := ofZ 20;
              sizingMode := PercentOfPosition |}
   /\ engineCalls (traceOf (run (scripted calm)
                     (BuyHandle (operators [1; 2]%Z) (from 1 "/buy btcusdt 20%"))
                     StatusRunning))
      = [ControllerPosition "BTCUSDT";
         ControllerCreateOrderMarketQuote SideTypeBuy "BTCUSDT" (ofZ 200)])
  /\ (parseOrder sellRegexp "/sell BTCUSDT 50%"
        = inr {| intentPair := "BTCUSDT"; intentAmount := ofZ 50;
                 sizingMode := PercentOfPosition |}
      /\ engineCalls (traceOf (run (scripted calm)
                        (SellHandle (operators [1; 2]%Z) (from 1 "/sell BTCUSDT 50%"))
                        StatusRunning))
         = [ControllerPosition "BTCUSDT";
            ControllerCreateOrderMarket SideTypeSell "BTCUSDT" (ofRatio 3 4)]).
Proof.
  split; (split; [vm_compute; reflexivity|]).
  - exact (C1_order_sizing (scripted calm) (operators [1; 2]%Z)
             (from 1 "/buy btcusdt 20%") StatusRunning SideTypeBuy
             "BTCUSDT" (ofZ 20) PercentOfPosition
             ltac:(vm_compute; reflexivity)
             (ofRatio 3 2) (ofZ 1000) StatusRunning eq_refl).
  - exact (C1_order_sizing (scripted calm) (operators [1; 2]%Z)
             (from 1 "/sell BTCUSDT 50%") StatusRunning SideTypeSell
             "BTCUSDT" (ofZ 50) PercentOfPosition
             ltac:(vm_compute; reflexivity)
             (ofRatio 3 2) (ofZ 1000) StatusRunning eq_refl).
Defined.

(** C2, as stated, fails.  A buy command whose amount has 310 digits
    matches the grammar, [ParseFloat] rejects the amount as out of range,
    and the error goes through [OnError] to every operator: with operators
    1 and 2 and the command sent by 1, operator 2 receives the error and no
    reply is addressed to the sender alone. *)
Lemma C2_parse_error_broadcast_counterexample :
  let txt := "/buy BTCUSDT 1" +:+ zeros 309 in
  let e := NumError "ParseFloat" ("1" +:+ zeros 309) ErrRange in
  parseOrder buyRegexp txt = inl (AmountError e)
  /\ sends (traceOf (run (scripted calm)
                       (BuyHandle (operators [1; 2]%Z) (from 1 txt)) StatusRunning))
     = [({| ID := 1 |}, errorMessage (Some e)); ({| ID := 2 |}, errorMessage (Some e))].
Proof. vm_compute. split; reflexivity. Qed.

(** C2, amended.  For every buy or sell command: when the text does not
    match the grammar the only message sent is the usage example, to the
    requesting sender; when the amount is not above zero the only message
    sent is "Invalid amount", to the requesting sender; in both cases
    nothing goes through the Error Classifier.  When [ParseFloat] fails on
    the amount, the handler returns that error and the messages sent are
    those of the Error Classifier: the error text, once to every operator
    of the allow-list. *)
Theorem C2_parse_errors_amended (W : World) (t : telegram) (c : Context)
    (w : state W) (side : SideType) :
  let r := run W (handleOf side t c) w in
  match parseOrder (grammarOf side) (ctxText c) with
  | inl NoMatch =>
      sends (traceOf r) = [(ctxSender c, [Literal (usageOf side)])]
  | inl InvalidAmount =>
      sends (traceOf r) = [(ctxSender c, [Literal "Invalid amount"])]
  | inl (AmountError e) =>
      resultOf r = Some e
      /\ sends (traceOf r)
         = map (fun user => ({| ID := int64 user |}, errorMessage (Some e)))
               (Users (Telegram (settings t)))
  | inr _ => True
  end.
Proof.
  intros r. subst r. rewrite handle_parse.
  destruct (parseOrder (grammarOf side) (ctxText c)) as [[|e|]|i].
  - apply reply_run.
  - pose proof (escalate_run W t e w) as (Hs & _ & _ & Hr). split; assumption.
  - apply reply_run.
  - exact I.
Qed.

(** C3 at its failing input.  The position lookup fails.  [SellHandle] on
    "/sell BTCUSDT 50%" returns the engine error after the lookup and does
    nothing else: no call to [OnError], no message to any operator.
    [BuyHandle] on "/buy BTCUSDT 50%" returns the same error after logging
    it and broadcasting it to the operators 1 and 2. *)
Lemma C3_sell_position_failure_is_silent :
  run (scripted positionDown)
      (SellHandle (operators [1; 2]%Z) (from 1 "/sell BTCUSDT 50%")) StatusRunning
  = (Some engineDown,
     [Event (ControllerPosition "BTCUSDT") (zero, zero, Some engineDown)],
     StatusRunning)
  /\ resultOf (run (scripted positionDown)
                 (BuyHandle (operators [1; 2]%Z) (from 1 "/buy BTCUSDT 50%"))
                 StatusRunning) = Some engineDown
  /\ sends (traceOf (run (scripted positionDown)
                       (BuyHandle (operators [1; 2]%Z) (from 1 "/buy BTCUSDT 50%"))
                       StatusRunning))
     = [({| ID := 1 |}, errorMessage (Some engineDown));
        ({| ID := 2 |}, errorMessage (Some engineDown))].
Proof. vm_compute. repeat split; reflexivity. Qed.

(** C6.  For every buy or sell command whose text does not match the
    grammar, parsing fails with no match (the spec's ParseError), the one
    message sent is the usage example, to the requesting sender, the
    handler returns what that send returned, and no call is made to the
    engine.  "/buy" and "/sell BTCUSDT -5" do not match. *)
Theorem C6_no_match_usage_reply :
  (forall (W : World) (t : telegram) (c : Context) (w : state W) (side : SideType),
      FindStringSubmatch (grammarOf side) (ctxText c) = [] ->
      let r := run W (handleOf side t c) w in
      parseOrder (grammarOf side) (ctxText c) = inl NoMatch
      /\ sends (traceOf r) = [(ctxSender c, [Literal (usageOf side)])]
      /\ engineCalls (traceOf r) = []
      /\ resultOf r
         = fst (answer W (ClientSend (ctxSender c) [Literal (usageOf side)] false) w))
  /\ FindStringSubmatch buyRegexp "/buy" = []
  /\ FindStringSubmatch sellRegexp "/sell BTCUSDT -5" = [].
Proof.
  split; [|split; vm_compute; reflexivity].
  intros W t c w side Hno r. subst r.
  assert (Hp : parseOrder (grammarOf side) (ctxText c) = inl NoMatch).
  { unfold parseOrder. rewrite Hno. reflexivity. }
  rewrite handle_parse, Hp.
  pose proof (reply_run W (ctxSender c) [Literal (usageOf side)] false w)
    as (Hs & He & _ & Hr).
  repeat split; assumption.
Qed.

(** C6 at "/buy" and at "/sell BTCUSDT -5", every send succeeding. *)
Lemma C6_no_match_usage_reply_witness :
  (FindStringSubmatch buyRegexp "/buy" = []
   /\ run (scripted calm) (BuyHandle (operators [1; 2]%Z) (from 1 "/buy")) StatusRunning
      = (None,
         [Event (ClientSend {| ID := 1 |} [Literal buyUsage] false) None],
         StatusRunning)
   /\ engineCalls (traceOf (run (scripted calm)
                             (BuyHandle (operators [1; 2]%Z) (from 1 "/buy"))
                             StatusRunning)) = [])
  /\ (FindStringSubmatch sellRegexp "/sell BTCUSDT -5" = []
      /\ engineCalls (traceOf (run (scripted calm)
                                (SellHandle (operators [1; 2]%Z)
                                   (from 2 "/sell BTCUSDT -5"))
                                StatusRunning)) = []).
Proof.
  split.
  - split; [vm_compute; reflexivity|].
    split; [vm_compute; reflexivity|].
    exact (proj1 (proj2 (proj2
             (proj1 C6_no_match_usage_reply (scripted calm) (operators [1; 2]%Z)
                (from 1 "/buy") StatusRunning SideTypeBuy
                ltac:(vm_compute; reflexivity))))).
  - split; [vm_compute; reflexivity|].
    exact (proj1 (proj2 (proj2
             (proj1 C6_no_match_usage_reply (scripted calm) (operators [1; 2]%Z)
                (from 2 "/sell BTCUSDT -5") StatusRunning SideTypeSell
                ltac:(vm_compute; reflexivity))))).
Defined.

(** C8.  Notification fan-out.  Whatever the client answers to each send,
    [Notify] hands the text to the client once for every entry of the
    allow-list, in order; the only other calls it makes are the logs of the
    failed sends; it returns nothing, so no failure reaches its caller. *)
Theorem C8_notify_fan_out (W : World) (t : telegram) (what : text) (w : state W) :
  let r := run W (Notify t what) w in
  sends (traceOf r)
    = map (fun user => ({| ID := int64 user |}, what)) (Users (Telegram (settings t)))
  /\ Forall (fun e => isSend (callOf e) = true \/ isLogError (callOf e) = true)
            (traceOf r)
  /\ resultOf r = tt.
Proof.
  intros r. subst r. unfold Notify. split; [apply sendEach_sends|].
  split; [apply sendEach_only_sends_and_logs|].
  destruct (resultOf _). reflexivity.
Qed.

(** ** The run state of the engine *)

Lemma neverToggles_bind {A B : Type} (p : prog A) (f : A -> prog B) :
  neverToggles p -> (forall a, neverToggles (f a)) -> neverToggles (bind p f).
Proof.
  intros Hp Hf. induction p as [a | c k IH]; cbn [bind neverToggles] in *.
  - apply Hf.
  - destruct Hp as [Hc Hk]. split; [exact Hc|]. intros r. apply IH, Hk.
Qed.

Lemma neverToggles_keeps (W : World) (runState : state W -> Status) {A : Type}
    (p : prog A) (w : state W) :
  EngineSpec W runState -> neverToggles p ->
  runState (finalOf (run W p w)) = runState w.
Proof.
  intros HE. revert w. induction p as [a | c k IH]; intros w Hq; cbn [run neverToggles] in *.
  - reflexivity.
  - destruct Hq as [Hc Hk].
    pose proof (others_keep W runState HE c w Hc) as Hkeep.
    destruct (answer W c w) as [r w1]. cbn [snd] in Hkeep.
    specialize (IH r w1 (Hk r)).
    destruct (run W (k r) w1) as [[a tr] w2].
    unfold finalOf in *. cbn [snd] in *. congruence.
Qed.

Ltac quiet_step :=
  match goal with
  | |- True => exact I
  | |- neverToggles (Ret _) => exact I
  | |- togglesRunState _ = false /\ _ => split; [reflexivity | intros ?]
  | |- neverToggles (Call _ _) =>
      cbn [neverToggles]; split; [reflexivity | intros ?]
  | |- neverToggles (bind _ _) => apply neverToggles_bind; [| intros ?]
  | |- neverToggles (match ?x with _ => _ end) => destruct x
  end.

Ltac quiet :=
  unfold mbind, prog_bind, mret, prog_ret, call_; cbn [bind];
  repeat (quiet_step; cbn [bind response] in * ).

Lemma logIfError_quiet (err : error) : neverToggles (logIfError err).
Proof. unfold logIfError. quiet. Qed.

Lemma sendEach_quiet (users : list Z) (what : text) (menu : bool) :
  neverToggles (sendEach users what menu).
Proof.
  induction users as [|user rest IH]; cbn [sendEach]; quiet.
  - apply logIfError_quiet.
  - exact IH.
Qed.

Lemma OnError_quiet (t : telegram) (err : error) : neverToggles (OnError t err).
Proof. rewrite OnError_Notify. apply sendEach_quiet. Qed.

Lemma reply_quiet (to : User) (what : text) (menu : bool) :
  neverToggles (reply to what menu).
Proof. unfold reply. quiet. apply logIfError_quiet. Qed.

Lemma escalate_quiet (t : telegram) (e : Error) : neverToggles (escalate t e).
Proof. unfold escalate. quiet. apply OnError_quiet. Qed.

Lemma resolveOf_quiet (side : SideType) (t : telegram) (i : ParsedOrderIntent) :
  neverToggles (resolveOf side t i).
Proof.
  destruct side; cbn [resolveOf]; unfold resolveBuy, resolveSell;
    destruct (sizingMode i); quiet; apply OnError_quiet.
Qed.

Lemma handleOf_quiet (side : SideType) (t : telegram) (c : Context) :
  neverToggles (handleOf side t c).
Proof.
  rewrite handle_parse.
  destruct (parseOrder (grammarOf side) (ctxText c)) as [[|e|]|i].
  - apply reply_quiet.
  - apply escalate_quiet.
  - apply reply_quiet.
  - apply resolveOf_quiet.
Qed.

Lemma balancePairs_quiet (t : telegram) (account : Account) (pairs : list string)
    (message : text) (quotesValue : gmap string float64) (total : float64) :
  neverToggles (balancePairs t account pairs message quotesValue total).
Proof.
  revert message quotesValue total.
  induction pairs as [|p rest IH]; intros message quotesValue total;
    cbn [balancePairs]; quiet.
  - apply OnError_quiet.
  - apply IH.
Qed.

Lemma BalanceHandle_quiet (t : telegram) (c : Context) : neverToggles (BalanceHandle t c).
Proof.
  unfold BalanceHandle. quiet.
  - apply OnError_quiet.
  - apply balancePairs_quiet.
  - apply logIfError_quiet.
Qed.

Lemma HelpHandle_quiet (t : telegram) (c : Context) : neverToggles (HelpHandle t c).
Proof. unfold HelpHandle. quiet. apply OnError_quiet. Qed.

Lemma profitEach_quiet (c : Context) (results : list (string * string)) :
  neverToggles (profitEach c results).
Proof.
  induction results as [|[p summary] rest IH]; cbn [profitEach]; quiet.
  - apply logIfError_quiet.
  - exact IH.
Qed.

Lemma ProfitHandle_quiet (t : telegram) (c : Context) : neverToggles (ProfitHandle t c).
Proof.
  unfold ProfitHandle. quiet.
  - apply logIfError_quiet.
  - apply profitEach_quiet.
Qed.

Lemma StatusHandle_quiet (t : telegram) (c : Context) : neverToggles (StatusHandle t c).
Proof. unfold StatusHandle. quiet. apply logIfError_quiet. Qed.

Lemma StartHandle_reply (t : telegram) (c : Context) :
  StartHandle t c =
    Call ControllerStatus (fun status =>
      if Status_eqb status StatusRunning
      then reply (ctxSender c) [Literal "Bot is already running."] true
      else Call ControllerStart (fun _ =>
             reply (ctxSender c) [Literal "Bot started."] true)).
Proof. reflexivity. Qed.

Lemma StopHandle_reply (t : telegram) (c : Context) :
  StopHandle t c =
    Call ControllerStatus (fun status =>
      if Status_eqb status StatusStopped
      then reply (ctxSender c) [Literal "Bot is already stopped."] true
      else Call ControllerStop (fun _ =>
             reply (ctxSender c) [Literal "Bot stopped."] true)).
Proof. reflexivity. Qed.

(** What a run of [toggle], the handler of /start or /stop, does: when the
    state read is [rest] it only replies; otherwise it calls [op] and
    replies. *)
Lemma toggle_run (W : World) (runState : state W -> Status) (w : state W)
    (rest : Status) (op : call) (to : User) (idle done : text) :
  EngineSpec W runState ->
  togglesRunState op = true ->
  let r := run W (Call ControllerStatus (fun status =>
                    if Status_eqb status rest then reply to idle true
                    else Call op (fun _ => reply to done true))) w in
  (runState w = rest ->
     engineCalls (traceOf r) = [ControllerStatus]
     /\ sends (traceOf r) = [(to, idle)]
     /\ runState (finalOf r) = runState w)
  /\ (runState w <> rest ->
        engineCalls (traceOf r) = [ControllerStatus; op]
        /\ sends (traceOf r) = [(to, done)]
        /\ runState (finalOf r) = runState (snd (answer W op (snd (answer W ControllerStatus w))))).
Proof.
  intros HE Hop r. subst r.
  destruct op; try discriminate Hop; clear Hop; cbn [run].
  all: pose proof (status_reads W runState HE w) as Hread.
  all: pose proof (others_keep W runState HE ControllerStatus w eq_refl) as Hkeep.
  all: destruct (answer W ControllerStatus w) as [status w1];
    cbn [fst snd response] in *; subst status.
  all: split; intros Hst;
    [ replace (Status_eqb (runState w) rest) with true
        by (rewrite Hst; destruct rest; reflexivity);
      pose proof (reply_run W to idle true w1) as (Hs & He & _ & _);
      pose proof (neverToggles_keeps W runState (reply to idle true) w1 HE
                    (reply_quiet to idle true)) as Hk;
      destruct (run W (reply to idle true) w1) as [[a tr] w2]
    | replace (Status_eqb (runState w) rest) with false
        by (destruct (runState w), rest; try reflexivity; congruence);
      cbn [run];
      match goal with
      | |- context [answer _ ?op ?w0] => destruct (answer W op w0) as [u w2]
      end;
      cbn [snd];
      pose proof (reply_run W to done true w2) as (Hs & He & _ & _);
      pose proof (neverToggles_keeps W runState (reply to done true) w2 HE
                    (reply_quiet to done true)) as Hk;
      destruct (run W (reply to done true) w2) as [[a tr] w3] ].
  all: unfold traceOf, finalOf, sends, engineCalls in *; cbn [fst snd] in *;
    cbn [map List.filter callOf isEngineCall omap list_omap sendOf];
    rewrite Hs, He; repeat split; congruence.
Qed.

Lemma handlers_cases (t : telegram) (endpoint : string) (h : Context -> prog error) :
  handlerOf (handlers t) endpoint = Some h ->
  (endpoint = "/start" /\ h = StartHandle t)
  \/ (endpoint = "/stop" /\ h = StopHandle t)
  \/ (forall c, neverToggles (h c)).
Proof.
  unfold handlers. cbn [handlerOf].
  repeat match goal with
         | |- context [String.eqb ?a endpoint] =>
             destruct (String.eqb_spec a endpoint) as [<-|_]
         end; intros H; try discriminate H; injection H as <-.
  - right; right. apply HelpHandle_quiet.
  - left. split; reflexivity.
  - right; left. split; reflexivity.
  - right; right. apply StatusHandle_quiet.
  - right; right. apply BalanceHandle_quiet.
  - right; right. apply ProfitHandle_quiet.
  - right; right. apply (handleOf_quiet SideTypeBuy).
  - right; right. apply (handleOf_quiet SideTypeSell).
Qed.

Lemma scripted_EngineSpec (sc : Script) : EngineSpec (scripted sc) (fun s => s).
Proof.
  constructor; intros; try reflexivity.
  destruct c; try reflexivity; discriminate.
Qed.

(** C7.  The run state of the engine being the one that [start()] moves to
    Running and [stop()] to Stopped: the handler of /start calls [start()]
    exactly when the state is not Running, and when it is Running its only
    call to the engine is the read of the state and its only message the
    informational reply; the same holds for /stop, [stop()] and Stopped.
    None of the registered handlers changes the run state except /start,
    from Stopped to Running, and /stop, from Running to Stopped; the filter,
    [Start], [Notify], [OnOrder] and [OnError] make no call that changes
    it. *)
Theorem C7_start_stop_transitions (W : World) (runState : state W -> Status)
    (t : telegram) (c : Context) (w : state W) :
  EngineSpec W runState ->
  let start := run W (StartHandle t c) w in
  let stop := run W (StopHandle t c) w in
  (In ControllerStart (engineCalls (traceOf start)) <-> runState w <> StatusRunning)
  /\ (runState w = StatusRunning ->
        engineCalls (traceOf start) = [ControllerStatus]
        /\ sends (traceOf start) = [(ctxSender c, [Literal "Bot is already running."])])
  /\ (In ControllerStop (engineCalls (traceOf stop)) <-> runState w <> StatusStopped)
  /\ (runState w = StatusStopped ->
        engineCalls (traceOf stop) = [ControllerStatus]
        /\ sends (traceOf stop) = [(ctxSender c, [Literal "Bot is already stopped."])])
  /\ (forall endpoint h,
        handlerOf (handlers t) endpoint = Some h ->
        runState (finalOf (run W (h c) w)) <> runState w ->
        (endpoint = "/start" /\ runState w = StatusStopped
         /\ runState (finalOf (run W (h c) w)) = StatusRunning)
        \/ (endpoint = "/stop" /\ runState w = StatusRunning
            /\ runState (finalOf (run W (h c) w)) = StatusStopped))
  /\ (forall u, neverToggles (userMiddleware (settings t) u))
  /\ neverToggles (Start t)
  /\ (forall what, neverToggles (Notify t what))
  /\ (forall order, neverToggles (OnOrder t order))
  /\ (forall err, neverToggles (OnError t err)).
Proof.
  intros HE start stop. subst start stop.
  pose proof (toggle_run W runState w StatusRunning ControllerStart (ctxSender c)
                [Literal "Bot is already running."] [Literal "Bot started."]
                HE eq_refl) as [Hrun1 Hrun2].
  pose proof (toggle_run W runState w StatusStopped ControllerStop (ctxSender c)
                [Literal "Bot is already stopped."] [Literal "Bot stopped."]
                HE eq_refl) as [Hstop1 Hstop2].
  cbv zeta in Hrun1, Hrun2, Hstop1, Hstop2.
  rewrite <- (StartHandle_reply t c) in Hrun1, Hrun2.
  rewrite <- (StopHandle_reply t c) in Hstop1, Hstop2.
  split; [|split; [|split; [|split; [|split; [|split; [|split; [|split; [|split]]]]]]]].
  - split.
    + intros Hin Hst. destruct (Hrun1 Hst) as (He & _). rewrite He in Hin.
      destruct Hin as [Hin|[]]. discriminate Hin.
    + intros Hst. destruct (Hrun2 Hst) as (He & _). rewrite He. right. left. reflexivity.
  - intros Hst. destruct (Hrun1 Hst) as (He & Hs & _). split; assumption.
  - split.
    + intros Hin Hst. destruct (Hstop1 Hst) as (He & _). rewrite He in Hin.
      destruct Hin as [Hin|[]]. discriminate Hin.
    + intros Hst. destruct (Hstop2 Hst) as (He & _). rewrite He. right. left. reflexivity.
  - intros Hst. destruct (Hstop1 Hst) as (He & Hs & _). split; assumption.
  - intros endpoint h Hh Hchange.
    destruct (handlers_cases t endpoint h Hh) as [[-> ->]|[[-> ->]|Hq]].
    + left. split; [reflexivity|].
      destruct (runState w) eqn:Hst.
      * exfalso. apply Hchange. destruct (Hrun1 eq_refl) as (_ & _ & Hf).
        exact Hf.
      * split; [reflexivity|].
        destruct (Hrun2 ltac:(discriminate)) as (_ & _ & Hf).
        rewrite Hf. apply (start_runs W runState HE).
    + right. split; [reflexivity|].
      destruct (runState w) eqn:Hst.
      * split; [reflexivity|].
        destruct (Hstop2 ltac:(discriminate)) as (_ & _ & Hf).
        rewrite Hf. apply (stop_stops W runState HE).
      * exfalso. apply Hchange. destruct (Hstop1 eq_refl) as (_ & _ & Hf).
        exact Hf.
    + exfalso. apply Hchange. apply neverToggles_keeps; [exact HE | apply Hq].
  - intros u. unfold userMiddleware.
    destruct (UpdMessage u) as [m|]; [destruct (Sender m) as [sender|]|]; quiet.
  - unfold Start. quiet. apply sendEach_quiet.
  - intros what. apply sendEach_quiet.
  - intros order. apply sendEach_quiet.
  - intros err. apply OnError_quiet.
Qed.

(** C7 in the scripted environment, the engine stopped: /start calls
    [start()]. *)
Lemma C7_start_stop_transitions_witness :
  EngineSpec (scripted calm) (fun s => s)
  /\ In ControllerStart
        (engineCalls (traceOf (run (scripted calm)
                                 (StartHandle (operators [1; 2]%Z) (from 1 "/start"))
                                 StatusStopped))).
Proof.
  split; [apply scripted_EngineSpec|].
  apply (proj1 (C7_start_stop_transitions (scripted calm) (fun s => s)
                  (operators [1; 2]%Z) (from 1 "/start") StatusStopped
                  (scripted_EngineSpec calm))).
  discriminate.
Defined.

(** ** The access filter *)

Lemma int_of_int64 (z : Z) : isInt64 z -> int z = z.
Proof.
  unfold isInt64, int, wrap, intSize. intros Hz.
  rewrite Z.mod_small; lia.
Qed.

Lemma userMiddleware_run (W : World) (settings : Settings) (u : Update) (w : state W) :
  resultOf (run W (userMiddleware settings u) w) = accepts settings u
  /\ (accepts settings u = true -> run W (userMiddleware settings u) w = (true, [], w))
  /\ (accepts settings u = false ->
        exists args, traceOf (run W (userMiddleware settings u) w)
                     = [Event (LogError args) tt]).
Proof.
  unfold userMiddleware, accepts.
  destruct (UpdMessage u) as [[[sender|] txt]|]; cbn [Sender]; run_step.
  - destruct (existsb _ _); run_step.
    + split; [reflexivity|]. split; [reflexivity | discriminate].
    + destruct (answer W (LogError _) w) as [[] w1].
      split; [reflexivity|]. split; [discriminate | eexists; reflexivity].
  - destruct (answer W (LogError _) w) as [[] w1].
    split; [reflexivity|]. split; [discriminate | eexists; reflexivity].
  - destruct (answer W (LogError _) w) as [[] w1].
    split; [reflexivity|]. split; [discriminate | eexists; reflexivity].
Qed.

Lemma accepts_iff (settings : Settings) (u : Update) :
  (forall m sender, UpdMessage u = Some m -> Sender m = Some sender -> isInt64 (ID sender)) ->
  accepts settings u = true <->
  exists m sender, UpdMessage u = Some m /\ Sender m = Some sender
                   /\ In (ID sender) (Users (Telegram settings)).
Proof.
  intros Hrange. unfold accepts.
  destruct (UpdMessage u) as [[[sender|] txt]|]; cbn [Sender].
  - rewrite existsb_exists. split.
    + intros (user & Hin & Heq). apply Z.eqb_eq in Heq.
      rewrite int_of_int64 in Heq by (eapply Hrange; reflexivity).
      subst user. eexists _, sender. repeat split. exact Hin.
    + intros (m & s & Hm & Hs & Hin). injection Hm as <-. cbn in Hs.
      injection Hs as <-. exists (ID sender). split; [exact Hin|].
      apply Z.eqb_eq. apply int_of_int64. eapply Hrange; reflexivity.
  - split; [discriminate|]. intros (m & s & Hm & Hs & _).
    injection Hm as <-. discriminate Hs.
  - split; [discriminate|]. intros (m & s & Hm & _). discriminate Hm.
Qed.

(** C4.  The access filter.  The identity of a sender being an int64: the
    filter returns true exactly when the update has a message with a sender
    whose identity is an entry of the allow-list.  When it returns true the
    update goes on to be routed.  When it returns false, for an unknown
    sender as for a missing message or sender, all that happens to the
    update is one log entry: nothing is sent, the update is not routed and
    no handler runs, whatever command its text holds. *)
Theorem C4_access_filter (W : World) (t : telegram) (u : Update) (w : state W) :
  (forall m sender, UpdMessage u = Some m -> Sender m = Some sender -> isInt64 (ID sender)) ->
  let accepted := resultOf (run W (userMiddleware (settings t) u) w) in
  (accepted = true <->
     exists m sender, UpdMessage u = Some m /\ Sender m = Some sender
                      /\ In (ID sender) (Users (Telegram (settings t))))
  /\ (accepted = true ->
        exists m endpoint rest,
          UpdMessage u = Some m
          /\ traceOf (run W (dispatch t u) w) = Event (Route (Text m)) endpoint :: rest)
  /\ (accepted = false ->
        exists args, traceOf (run W (dispatch t u) w) = [Event (LogError args) tt]).
Proof.
  intros Hrange accepted. subst accepted.
  pose proof (userMiddleware_run W (settings t) u w) as (Hres & Hyes & Hno).
  rewrite Hres. split; [apply accepts_iff; exact Hrange|].
  unfold dispatch. run_step. split; intros Hacc.
  - rewrite run_bind, (Hyes Hacc).
    unfold accepts in Hacc.
    destruct (UpdMessage u) as [[[sender|] txt]|]; try discriminate Hacc.
    cbn [run].
    destruct (answer W (Route txt) w) as [endpoint w1].
    destruct (run W _ w1) as [[a tr] w2].
    eexists _, endpoint, tr. split; reflexivity.
  - rewrite run_bind. destruct (Hno Hacc) as (args & Htr).
    rewrite Hacc in Hres.
    destruct (run W (userMiddleware (settings t) u) w) as [[a tr] w1].
    unfold resultOf, traceOf in *. cbn [fst snd] in *. subst a tr.
    cbn [run]. exists args. reflexivity.
Qed.

(** C4 at a /help sent by 3 when the operators are 1 and 2: one log entry,
    nothing else. *)
Lemma C4_access_filter_witness :
  let u := {| UpdMessage := Some {| Sender := Some {| ID := 3 |}; Text := "/help" |} |} in
  (forall m sender, UpdMessage u = Some m -> Sender m = Some sender -> isInt64 (ID sender))
  /\ exists args,
       traceOf (run (scripted calm) (dispatch (operators [1; 2]%Z) u) StatusRunning)
       = [Event (LogError args) tt].
Proof.
  intros u.
  assert (Hrange : forall m sender,
             UpdMessage u = Some m -> Sender m = Some sender -> isInt64 (ID sender)).
  { intros m sender Hm Hs. injection Hm as <-. injection Hs as <-.
    unfold isInt64. cbn [ID]. lia. }
  split; [exact Hrange|].
  apply (proj2 (proj2 (C4_access_filter (scripted calm) (operators [1; 2]%Z) u
                         StatusRunning Hrange))).
  reflexivity.
Defined.

(** ** /balance *)

Lemma balanceQuotes_lines (entries : list (string * float64)) (message : text) (total : float64) :
  exists lines total',
    balanceQuotes entries message total = (message ++ lines, total')
    /\ length lines = length entries.
Proof.
  revert message total.
  induction entries as [|[quote value] rest IH]; intros message total; cbn [balanceQuotes].
  - exists [], total. rewrite app_nil_r. split; reflexivity.
  - destruct (IH (message ++ [Sprintf "%s: `%.4f`
" [AString quote; AFloat value]]) (add total value)) as (lines & total' & Heq & Hlen).
    eexists (_ :: lines), total'. rewrite Heq, <- app_assoc. cbn [app length].
    split; [reflexivity | congruence].
Qed.

(** The first loop either stops at the first failed quote lookup, having
    sent nothing but the broadcast of the error, or goes through every pair
    and sends nothing. *)
Lemma balancePairs_run (W : World) (t : telegram) (account : Account)
    (pairs : list string) (message : text) (quotesValue : gmap string float64)
    (total : float64) (w : state W) :
  let r := run W (balancePairs t account pairs message quotesValue total) w in
  match resultOf r with
  | inl e =>
      (exists k, (k < length pairs)%nat
                 /\ lookups (traceOf r) = replicate k None ++ [Some e])
      /\ sends (traceOf r)
         = map (fun user => ({| ID := int64 user |}, errorMessage (Some e)))
               (Users (Telegram (settings t)))
  | inr (message', _, _) =>
      lookups (traceOf r) = replicate (length pairs) None
      /\ sends (traceOf r) = []
      /\ exists lines, message' = message ++ lines /\ length lines = length pairs
  end.
Proof.
  revert message quotesValue total w.
  induction pairs as [|p rest IH]; intros message quotesValue total w r; subst r;
    cbn [balancePairs].
  - run_step. unfold resultOf, traceOf. cbn [fst snd].
    repeat split. exists []. rewrite app_nil_r. split; reflexivity.
  - run_step.
    destruct (answer W (SplitAssetQuote p) w) as [[assetPair quotePair] w1].
    destruct (account assetPair quotePair) as [assetBalance quoteBalance].
    cbn [run bind].
    destruct (answer W (ControllerLastQuote p) w1) as [[quote [e|]] w2]; cbn [run bind].
    + destruct (answer W (LogError _) w2) as [[] w3].
      rewrite run_bind, OnError_Notify.
      pose proof (Notify_run W t (errorMessage (Some e)) w3) as (Hs & _ & Hl).
      destruct (run W (Notify t (errorMessage (Some e))) w3) as [[[] tr] w4].
      cbn [run]. unfold resultOf, traceOf, sends, lookups in *. cbn [fst snd] in *.
      rewrite app_nil_r. cbn [omap list_omap sendOf lookupOf].
      rewrite Hs, Hl. split; [|reflexivity].
      exists 0%nat. cbn [length replicate app]. split; [lia | reflexivity].
    + match goal with
      | |- context [balancePairs t account rest ?m ?q ?tot] =>
          specialize (IH m q tot w2)
      end.
      cbv zeta in IH.
      destruct (run W (balancePairs t account rest _ _ _) w2) as [[res tr] w3].
      unfold resultOf, traceOf, sends, lookups in *. cbn [fst snd] in *.
      cbn [omap list_omap sendOf lookupOf].
      destruct res as [e|[[message' qv'] total']].
      * destruct IH as ((k & Hk & Hl) & Hs). split; [|exact Hs].
        exists (S k). cbn [length replicate app]. split; [lia | rewrite Hl; reflexivity].
      * destruct IH as (Hl & Hs & lines & Hm & Hlen).
        split; [cbn [length replicate]; rewrite Hl; reflexivity|]. split; [exact Hs|].
        eexists (_ :: lines). rewrite Hm, <- app_assoc. cbn [app length].
        split; [reflexivity | congruence].
Qed.

(** Three operators, the transport failing for the second: the first and
    the third still get the message, the failure is logged in between. *)
Example Notify_one_recipient_failing :
  traceOf (run (scripted unreachable2)
             (Notify (operators [1; 2; 3]%Z) [Literal "hello"]) StatusRunning)
  = [Event (ClientSend {| ID := 1 |} [Literal "hello"] false) None;
     Event (ClientSend {| ID := 2 |} [Literal "hello"] false)
           (Some (OtherError "unreachable"));
     Event (LogError [AError (Some (OtherError "unreachable"))]) tt;
     Event (ClientSend {| ID := 3 |} [Literal "hello"] false) None].
Proof. reflexivity. Qed.

(** C9.  /balance.  Either one lookup fails, the account lookup or the
    quote lookup of one of the pairs, every lookup before it having
    succeeded and none being made after it; the handler then returns that
    error, and the only messages sent are those of the Error Classifier,
    the error text to every operator: no balance report, partial or
    complete.  Or every lookup succeeds, one for the account and one per
    configured pair, and exactly one message is sent, to the requesting
    sender: the header, one line per pair, the lines of the quote
    currencies and the grand total. *)
Theorem C9_balance_all_or_nothing (W : World) (t : telegram) (c : Context) (w : state W) :
  let r := run W (BalanceHandle t c) w in
  let pairs := Pairs (settings t) in
  (exists e k,
      (k <= length pairs)%nat
      /\ lookups (traceOf r) = replicate k None ++ [Some e]
      /\ resultOf r = Some e
      /\ sends (traceOf r)
         = map (fun user => ({| ID := int64 user |}, errorMessage (Some e)))
               (Users (Telegram (settings t))))
  \/ (lookups (traceOf r) = replicate (S (length pairs)) None
      /\ exists lines quoteLines total,
           sends (traceOf r)
           = [(ctxSender c,
               [Literal "*BALANCE*
"] ++ lines ++ quoteLines ++ [Sprintf "-----
Total: `%.4f`
" [AFloat total]])]
           /\ length lines = length pairs).
Proof.
  intros r pairs. subst r pairs. unfold BalanceHandle. run_step.
  destruct (answer W ControllerAccount w) as [[account [e|]] w1]; cbn [run bind].
  - left. destruct (answer W (LogError _) w1) as [[] w2].
    rewrite run_bind, OnError_Notify.
    pose proof (Notify_run W t (errorMessage (Some e)) w2) as (Hs & _ & Hl).
    destruct (run W (Notify t (errorMessage (Some e))) w2) as [[[] tr] w3].
    cbn [run]. unfold resultOf, traceOf, sends, lookups in *. cbn [fst snd] in *.
    rewrite app_nil_r. cbn [omap list_omap sendOf lookupOf].
    rewrite Hs, Hl. exists e, 0%nat. cbn [replicate app].
    split; [lia|]. repeat split.
  - rewrite run_bind.
    pose proof (balancePairs_run W t account (Pairs (settings t))
                  [Literal "*BALANCE*
"] ∅ zero w1) as Hloop.
    cbv zeta in Hloop.
    destruct (run W (balancePairs t account (Pairs (settings t)) _ _ _) w1)
      as [[res tr] w2].
    unfold resultOf, traceOf in Hloop. cbn [fst snd] in Hloop.
    destruct res as [e|[[message qv] total]].
    + left. destruct Hloop as ((k & Hk & Hl) & Hs).
      cbn [run]. unfold resultOf, traceOf, sends, lookups in *. cbn [fst snd] in *.
      rewrite app_nil_r. cbn [omap list_omap sendOf lookupOf].
      exists e, (S k). cbn [replicate app].
      repeat split; [lia | rewrite Hl; reflexivity | exact Hs].
    + right. destruct Hloop as (Hl & Hs & lines & Hm & Hlen).
      cbn [run bind].
      destruct (answer W (RangeQuotes qv) w2) as [entries w3].
      destruct (balanceQuotes_lines entries message total)
        as (quoteLines & total' & Hq & _).
      rewrite Hq. cbn [run bind].
      destruct (answer W (ClientSend _ _ _) w3) as [err w4].
      rewrite run_bind.
      pose proof (logIfError_run W err w4) as (Hs' & _ & Hl' & _).
      destruct (run W (logIfError err) w4) as [[[] tr'] w5].
      cbn [run]. unfold resultOf, traceOf, sends, lookups in *. cbn [fst snd] in *.
      cbn [omap list_omap sendOf lookupOf].
      rewrite !omap_app. cbn [omap list_omap sendOf lookupOf].
      rewrite Hs, Hl, app_nil_r. rewrite Hs', Hl'. cbn [app].
      split; [rewrite app_nil_r; reflexivity|].
      exists lines, quoteLines, total'. split; [|exact Hlen].
      rewrite Hm. rewrite <- !app_assoc. reflexivity.
Qed.


(** * Regular expressions *)

Lemma append_cons (x : ascii) (a b : string) : String x a +:+ b = String x (a +:+ b).
Proof. reflexivity. Qed.

Lemma append_assoc (a b c : string) : (a +:+ b) +:+ c = a +:+ (b +:+ c).
Proof.
  induction a as [|x a IH]; [reflexivity|].
  rewrite !append_cons, IH. reflexivity.
Qed.

Lemma append_nil_r (a : string) : a +:+ "" = a.
Proof.
  induction a as [|x a IH]; [reflexivity|].
  rewrite append_cons, IH. reflexivity.
Qed.

Lemma length_append (a b : string) :
  String.length (a +:+ b) = (String.length a + String.length b)%nat.
Proof.
  induction a as [|x a IH]; [reflexivity|].
  rewrite append_cons. cbn [String.length]. rewrite IH. reflexivity.
Qed.

Lemma append_same_length_inv (a b suf : string) :
  a +:+ suf = b +:+ suf -> a = b.
Proof.
  revert b. induction a as [|x a IH]; intros [|y b] H.
  - reflexivity.
  - apply (f_equal String.length) in H.
    rewrite !length_append in H. cbn [String.length] in H. lia.
  - apply (f_equal String.length) in H.
    rewrite !length_append in H. cbn [String.length] in H. lia.
  - rewrite !append_cons in H. injection H as -> H. f_equal. apply IH, H.
Qed.

Ltac invert H := inversion H; subst; clear H.

(** ** [matches] lists matches *)

Lemma single_sound (ok : ascii -> bool) (s : string) (c : Captures)
    (m : string) (c' : Captures) (rest : string) :
  In (m, c', rest) (single ok s c) ->
  exists a, ok a = true /\ m = one a /\ c' = c /\ s = String a rest.
Proof.
  unfold single. destruct s as [|a s']; [intros []|].
  destruct (ok a) eqn:Hok; [|intros []].
  intros [H|[]]. injection H as <- <- <-. exists a. repeat split. exact Hok.
Qed.

Lemma andThen_in (rs : list result) (k : string -> Captures -> list result)
    (m : string) (c : Captures) (rest : string) :
  In (m, c, rest) (andThen rs k) <->
  exists m1 c1 s1 m2, In (m1, c1, s1) rs /\ In (m2, c, rest) (k s1 c1) /\ m = m1 +:+ m2.
Proof.
  unfold andThen. rewrite in_flat_map. split.
  - intros ([[m1 c1] s1] & Hin & H). apply in_map_iff in H.
    destruct H as ([[m2 c2] s2] & Heq & H2). injection Heq as <- <- <-.
    exists m1, c1, s1, m2. repeat split; assumption.
  - intros (m1 & c1 & s1 & m2 & H1 & H2 & ->).
    exists (m1, c1, s1). split; [exact H1|].
    apply in_map_iff. exists (m2, c, rest). split; [reflexivity | exact H2].
Qed.

Lemma iterate_in (body : string -> Captures -> list result) (fuel : nat)
    (s : string) (c : Captures) (m : string) (c' : Captures) (rest : string) :
  In (m, c', rest) (iterate body (S fuel) s c) <->
  exists m1 c1 s1,
    In (m1, c1, s1) (body s c)
    /\ ((m = m1 /\ c' = c1 /\ rest = s1)
        \/ exists m2, In (m2, c', rest) (iterate body fuel s1 c1) /\ m = m1 +:+ m2).
Proof.
  cbn [iterate]. rewrite in_flat_map. split.
  - intros ([[m1 c1] s1] & Hin & H). exists m1, c1, s1. split; [exact Hin|].
    apply in_app_or in H. destruct H as [H|[H|[]]].
    + right. apply in_map_iff in H. destruct H as ([[m2 c2] s2] & Heq & H2).
      injection Heq as <- <- <-. exists m2. split; [exact H2 | reflexivity].
    + left. injection H as <- <- <-. repeat split.
  - intros (m1 & c1 & s1 & Hin & H). exists (m1, c1, s1). split; [exact Hin|].
    apply in_or_app. destruct H as [(-> & -> & ->)|(m2 & H2 & ->)].
    + right. left. reflexivity.
    + left. apply in_map_iff. exists (m2, c', rest). split; [reflexivity | exact H2].
Qed.

Lemma matches_sound (r : Regexp) (s : string) (c : Captures)
    (m : string) (c' : Captures) (rest : string) :
  In (m, c', rest) (matches r s c) -> s = m +:+ rest /\ Match r m c c'.
Proof.
  revert s c m c' rest.
  induction r as [a | k | r1 IH1 r2 IH2 | r1 IH1 | r1 IH1 | i name r1 IH1];
    intros s c m c' rest Hin; cbn [matches] in Hin.
  - apply single_sound in Hin. destruct Hin as (b & Hb & -> & -> & ->).
    apply Ascii.eqb_eq in Hb. subst b. split; [reflexivity | constructor].
  - apply single_sound in Hin. destruct Hin as (b & Hb & -> & -> & ->).
    split; [reflexivity | constructor; exact Hb].
  - apply andThen_in in Hin. destruct Hin as (m1 & c1 & s1 & m2 & H1 & H2 & ->).
    apply IH1 in H1. apply IH2 in H2. destruct H1 as [-> M1], H2 as [-> M2].
    split; [symmetry; apply append_assoc | econstructor; eassumption].
  - remember (S (String.length s)) as fuel eqn:Hfuel. clear Hfuel.
    revert s c m c' rest Hin.
    induction fuel as [|fuel IHf]; intros s c m c' rest Hin; [destruct Hin|].
    apply iterate_in in Hin.
    destruct Hin as (m1 & c1 & s1 & H1 & [(-> & -> & ->)|(m2 & H2 & ->)]).
    + apply IH1 in H1. destruct H1 as [-> M1].
      split; [reflexivity | apply MatchPlusOne; exact M1].
    + apply IH1 in H1. destruct H1 as [-> M1].
      apply IHf in H2. destruct H2 as [-> M2].
      split; [symmetry; apply append_assoc | eapply MatchPlusMore; eassumption].
  - apply in_app_or in Hin. destruct Hin as [Hin|[Hin|[]]].
    + apply IH1 in Hin. destruct Hin as [-> M1].
      split; [reflexivity | apply MatchQuestSome; exact M1].
    + injection Hin as <- <- <-. split; [reflexivity | apply MatchQuestNone].
  - apply in_map_iff in Hin. destruct Hin as ([[m1 c1] s1] & Heq & H1).
    injection Heq as <- <- <-. apply IH1 in H1. destruct H1 as [-> M1].
    split; [reflexivity | constructor; exact M1].
Qed.

Lemma Match_minLen (r : Regexp) (m : string) (c c' : Captures) :
  Match r m c c' -> (minLen r <= String.length m)%nat.
Proof.
  induction 1; cbn [minLen one String.length] in *;
    rewrite ?length_append; lia.
Qed.

Lemma iterate_mono (body : string -> Captures -> list result) (n n' : nat)
    (s : string) (c : Captures) (x : result) :
  (n <= n')%nat -> In x (iterate body n s c) -> In x (iterate body n' s c).
Proof.
  revert n' s c x. induction n as [|n IH]; intros n' s c [[m c'] rest] Hle Hin;
    [destruct Hin|].
  destruct n' as [|n']; [lia|].
  apply iterate_in in Hin. apply iterate_in.
  destruct Hin as (m1 & c1 & s1 & H1 & H). exists m1, c1, s1. split; [exact H1|].
  destruct H as [H|(m2 & H2 & ->)]; [left; exact H|].
  right. exists m2. split; [|reflexivity]. apply (IH n'); [lia | exact H2].
Qed.

(** Every match of a prefix of the input is among [matches], whatever
    follows the prefix. *)
Lemma matches_complete (r : Regexp) (m : string) (c c' : Captures) :
  Match r m c c' -> productive r = true ->
  forall rest, In (m, c', rest) (matches r (m +:+ rest) c).
Proof.
  induction 1 as [a c | k a c Hk | r1 r2 m1 m2 c c1 c2 M1 IH1 M2 IH2
                 | r m c c1 M IH | r m1 m2 c c1 c2 M1 IH1 M2 IH2
                 | r m c c1 M IH | r c | i name r m c c1 M IH];
    intros Hp rest; cbn [productive] in Hp; cbn [matches].
  - unfold one. rewrite append_cons. cbn [single]. rewrite Ascii.eqb_refl.
    left. reflexivity.
  - unfold one. rewrite append_cons. cbn [single]. rewrite Hk.
    left. reflexivity.
  - apply andb_true_iff in Hp. destruct Hp as [Hp1 Hp2].
    apply andThen_in. exists m1, c1, (m2 +:+ rest), m2.
    rewrite append_assoc. split; [apply IH1, Hp1|]. split; [apply IH2, Hp2 | reflexivity].
  - apply andb_true_iff in Hp. destruct Hp as [_ Hp].
    apply iterate_in. exists m, c1, rest. split; [apply IH, Hp|]. left. repeat split.
  - pose proof Hp as Hp'. apply andb_true_iff in Hp. destruct Hp as [Hmin Hp].
    apply Nat.ltb_lt in Hmin.
    apply iterate_in. exists m1, c1, (m2 +:+ rest).
    rewrite append_assoc. split; [apply IH1, Hp|]. right.
    exists m2. split; [|reflexivity].
    specialize (IH2 Hp' rest). cbn [matches] in IH2.
    eapply iterate_mono; [|exact IH2].
    pose proof (Match_minLen _ _ _ _ M1) as Hlen.
    rewrite !length_append in *. lia.
  - apply in_or_app. left. apply IH, Hp.
  - apply in_or_app. right. left. reflexivity.
  - apply in_map_iff. exists (m, c1, rest). split; [reflexivity | apply IH, Hp].
Qed.

(** ** The leftmost match *)

Lemma find_some (r : Regexp) (s : string) (caps : Captures) :
  find r s = Some caps ->
  exists before s' m rest tl,
    s = before +:+ s'
    /\ matches (Group 0 "" r) s' [] = (m, caps, rest) :: tl
    /\ forall b a, s = b +:+ a ->
                   (String.length b < String.length before)%nat ->
                   matches (Group 0 "" r) a [] = [].
Proof.
  induction s as [|x s IH]; cbn [find].
  - destruct (matches (Group 0 "" r) "" []) as [|[[m c] rest] tl] eqn:Hm;
      [discriminate|].
    intros H. injection H as <-. exists "", "", m, rest, tl.
    split; [reflexivity|]. split; [exact Hm|]. intros b a _ Hlt. cbn in Hlt. lia.
  - destruct (matches (Group 0 "" r) (String x s) []) as [|[[m c] rest] tl] eqn:Hm.
    + intros H. destruct (IH H) as (before & s' & m & rest & tl & -> & Hs' & Hmin).
      exists (String x before), s', m, rest, tl.
      split; [reflexivity|]. split; [exact Hs'|].
      intros b a Hba Hlt. destruct b as [|y b].
      * change ("" +:+ a) with a in Hba. subst a. exact Hm.
      * rewrite !append_cons in Hba. injection Hba as <- Hba.
        apply (Hmin b a Hba). cbn [String.length] in Hlt. lia.
    + intros H. injection H as <-. exists "", (String x s), m, rest, tl.
      split; [reflexivity|]. split; [exact Hm|]. intros b a _ Hlt. cbn in Hlt. lia.
Qed.

Lemma find_finds (r : Regexp) (before s' : string) :
  matches (Group 0 "" r) s' [] <> [] -> find r (before +:+ s') <> None.
Proof.
  intros Hne. induction before as [|x before IH].
  - change ("" +:+ s') with s'.
    destruct (matches (Group 0 "" r) s' []) as [|[[m c] rest] tl] eqn:Hm;
      [contradiction|].
    destruct s' as [|y s']; cbn [find]; rewrite Hm; discriminate.
  - rewrite append_cons. cbn [find].
    destruct (matches (Group 0 "" r) (String x (before +:+ s')) [])
      as [|[[m c] rest] tl]; [exact IH | discriminate].
Qed.

(** ** Text after the match does not change the match *)

Lemma iterate_sound (r : Regexp) (n : nat) (s : string) (c : Captures)
    (m : string) (c' : Captures) (rest : string) :
  In (m, c', rest) (iterate (matches r) n s c) ->
  s = m +:+ rest /\ Match (Plus r) m c c'.
Proof.
  revert s c m c' rest.
  induction n as [|n IH]; intros s c m c' rest Hin; [destruct Hin|].
  apply iterate_in in Hin.
  destruct Hin as (m1 & c1 & s1 & H1 & [(-> & -> & ->)|(m2 & H2 & ->)]);
    apply matches_sound in H1; destruct H1 as [-> M1].
  - split; [reflexivity | apply MatchPlusOne; exact M1].
  - apply IH in H2. destruct H2 as [-> M2].
    split; [symmetry; apply append_assoc | eapply MatchPlusMore; eassumption].
Qed.

Lemma flat_map_ext_In {A B : Type} (f g : A -> list B) (l : list A) :
  (forall x, In x l -> f x = g x) -> flat_map f l = flat_map g l.
Proof.
  induction l as [|x l IH]; intros H; cbn [flat_map]; [reflexivity|].
  rewrite (H x (or_introl eq_refl)), IH; [reflexivity|].
  intros y Hy. apply H. right. exact Hy.
Qed.

(** Fuel above the length of the input is never used up. *)
Lemma iterate_fuel (r : Regexp) (n n' : nat) (s : string) (c : Captures) :
  (0 < minLen r)%nat ->
  (String.length s < n)%nat -> (String.length s < n')%nat ->
  iterate (matches r) n s c = iterate (matches r) n' s c.
Proof.
  intros Hmin. revert n' s c.
  induction n as [|n IH]; intros n' s c Hn Hn'; [lia|].
  destruct n' as [|n']; [lia|]. cbn [iterate].
  apply flat_map_ext_In. intros [[m1 c1] s1] Hin.
  apply matches_sound in Hin. destruct Hin as [-> M1].
  apply Match_minLen in M1. rewrite length_append in Hn, Hn'.
  rewrite (IH n' s1 c1); [reflexivity | lia | lia].
Qed.

Lemma Trim_app (suf : string) (l1 l1' l2 l2' : list result) :
  Trim suf l1 l1' -> Trim suf l2 l2' -> Trim suf (l1 ++ l2) (l1' ++ l2').
Proof.
  intros H1 H2. induction H1; cbn [app]; [exact H2 | |];
    constructor; assumption.
Qed.

Lemma Trim_none (suf : string) (l : list result) :
  (forall m c rest, In (m, c, rest) l -> (String.length rest < String.length suf)%nat) ->
  Trim suf l [].
Proof.
  induction l as [|[[m c] rest] l IH]; intros H; [constructor|].
  apply TrimDrop; [apply (H m c rest); left; reflexivity|].
  apply IH. intros m' c' rest' Hin. apply (H m' c' rest'). right. exact Hin.
Qed.

Lemma Trim_flat_map (suf : string) (g : result -> list result) (l l' : list result) :
  Trim suf l l' ->
  (forall m c rest, Trim suf (g (m, c, rest +:+ suf)) (g (m, c, rest))) ->
  (forall m c rest, (String.length rest < String.length suf)%nat ->
                    Trim suf (g (m, c, rest)) []) ->
  Trim suf (flat_map g l) (flat_map g l').
Proof.
  intros H Hkeep Hdrop. induction H; cbn [flat_map].
  - constructor.
  - apply Trim_app; [apply Hkeep | exact IHTrim].
  - refine (Trim_app suf _ [] _ _ _ IHTrim). apply Hdrop. assumption.
Qed.

Lemma Trim_map_prefix (suf m1 : string) (l l' : list result) :
  Trim suf l l' ->
  Trim suf (map (fun '(m2, c2, s2) => (m1 +:+ m2, c2, s2)) l)
           (map (fun '(m2, c2, s2) => (m1 +:+ m2, c2, s2)) l').
Proof. induction 1; cbn [map]; constructor; assumption. Qed.

Lemma Trim_map_group (suf : string) (i : nat) (l l' : list result) :
  Trim suf l l' ->
  Trim suf (map (fun '(m, c, s') => (m, (i, m) :: c, s')) l)
           (map (fun '(m, c, s') => (m, (i, m) :: c, s')) l').
Proof. induction 1; cbn [map]; constructor; assumption. Qed.

Lemma iterate_Trim (r : Regexp) (suf : string) (n : nat) :
  (forall s c, Trim suf (matches r (s +:+ suf) c) (matches r s c)) ->
  forall s c, Trim suf (iterate (matches r) n (s +:+ suf) c) (iterate (matches r) n s c).
Proof.
  intros Hbody. induction n as [|n IH]; intros s c; cbn [iterate]; [constructor|].
  apply Trim_flat_map; [apply Hbody | |].
  - intros m1 c1 rest. apply Trim_app; [apply Trim_map_prefix, IH|].
    repeat constructor.
  - intros m1 c1 rest Hlt. refine (Trim_app suf _ [] _ [] _ _).
    + apply Trim_none. intros m c' rest' Hin.
      apply in_map_iff in Hin. destruct Hin as ([[m2 c2] s2] & Heq & Hin).
      injection Heq as <- <- <-. apply iterate_sound in Hin.
      destruct Hin as [-> _]. rewrite length_append in Hlt. lia.
    + apply TrimDrop; [exact Hlt | constructor].
Qed.

Lemma matches_Trim (r : Regexp) (suf : string) :
  productive r = true ->
  forall s c, Trim suf (matches r (s +:+ suf) c) (matches r s c).
Proof.
  assert (Hsingle : forall ok s c,
             Trim suf (single ok (s +:+ suf) c) (single ok s c)).
  { intros ok [|a s] c.
    - change ("" +:+ suf) with suf. destruct suf as [|a suf']; cbn [single].
      + constructor.
      + destruct (ok a); [|constructor].
        apply TrimDrop; [cbn [String.length]; lia | constructor].
    - rewrite append_cons. cbn [single]. destruct (ok a); repeat constructor. }
  induction r as [a | k | r1 IH1 r2 IH2 | r1 IH1 | r1 IH1 | i name r1 IH1];
    intros Hp s c; cbn [productive] in Hp; cbn [matches].
  - apply Hsingle.
  - apply Hsingle.
  - apply andb_true_iff in Hp. destruct Hp as [Hp1 Hp2]. unfold andThen.
    apply Trim_flat_map; [apply IH1, Hp1 | |].
    + intros m1 c1 rest. apply Trim_map_prefix, IH2, Hp2.
    + intros m1 c1 rest Hlt. apply Trim_none. intros m c' rest' Hin.
      apply in_map_iff in Hin. destruct Hin as ([[m2 c2] s2] & Heq & Hin).
      injection Heq as <- <- <-. apply matches_sound in Hin.
      destruct Hin as [-> _]. rewrite length_append in Hlt. lia.
  - apply andb_true_iff in Hp. destruct Hp as [Hmin Hp]. apply Nat.ltb_lt in Hmin.
    rewrite (iterate_fuel r1 (S (String.length s)) (S (String.length (s +:+ suf))) s c Hmin);
      [| lia | rewrite length_append; lia].
    apply iterate_Trim. intros s0 c0. apply IH1, Hp.
  - apply Trim_app; [apply IH1, Hp | repeat constructor].
  - apply Trim_map_group, IH1, Hp.
Qed.

(** The first way to match is the same on the matched text alone. *)
Lemma matches_head_alone (r : Regexp) (m : string) (c c' : Captures)
    (rest : string) (tl : list result) :
  productive r = true ->
  matches r (m +:+ rest) c = (m, c', rest) :: tl ->
  exists tl', matches r m c = (m, c', "") :: tl'.
Proof.
  intros Hp Hm. pose proof (matches_Trim r rest Hp m c) as HT.
  rewrite Hm in HT.
  remember ((m, c', rest) :: tl) as L eqn:HL.
  destruct HT as [| m0 c0 rest0 l l' HT' | m0 c0 rest0 l l' Hlt HT'].
  - discriminate HL.
  - injection HL as -> -> Hrest ->.
    assert (rest0 = "") as ->
        by (apply (append_same_length_inv rest0 "" rest); exact Hrest).
    eexists. reflexivity.
  - injection HL as -> -> -> ->. lia.
Qed.

(** ** The shape of a match of the order grammar *)

Lemma Match_Lit_inv (a : ascii) (m : string) (c c' : Captures) :
  Match (Lit a) m c c' -> m = one a /\ c' = c.
Proof. intros H. invert H. split; reflexivity. Qed.

Lemma Match_Cat_inv (r1 r2 : Regexp) (m : string) (c c' : Captures) :
  Match (Cat r1 r2) m c c' ->
  exists m1 m2 c1, m = m1 +:+ m2 /\ Match r1 m1 c c1 /\ Match r2 m2 c1 c'.
Proof. intros H. invert H. eexists _, _, _. repeat split; eassumption. Qed.

Lemma Match_Quest_inv (r : Regexp) (m : string) (c c' : Captures) :
  Match (Quest r) m c c' -> (m = "" /\ c' = c) \/ Match r m c c'.
Proof. intros H. invert H; [right; assumption | left; split; reflexivity]. Qed.

Lemma Match_Group_inv (i : nat) (name : string) (r : Regexp) (m : string)
    (c c' : Captures) :
  Match (Group i name r) m c c' -> exists c1, Match r m c c1 /\ c' = (i, m) :: c1.
Proof. intros H. invert H. eexists. split; [eassumption | reflexivity]. Qed.

Lemma allChars_append (ok : ascii -> bool) (a b : string) :
  allChars ok (a +:+ b) = allChars ok a && allChars ok b.
Proof.
  induction a as [|x a IH]; [reflexivity|].
  rewrite append_cons. cbn [allChars]. rewrite IH, andb_assoc. reflexivity.
Qed.

Lemma append_not_empty_l (a b : string) : a <> "" -> a +:+ b <> "".
Proof. destruct a; [congruence|]. intros _. rewrite append_cons. discriminate. Qed.

Lemma Match_PlusClass_inv (k : class) (m : string) (c c' : Captures) :
  Match (Plus (Class k)) m c c' ->
  c' = c /\ m <> "" /\ allChars (inClass k) m = true.
Proof.
  intros H. remember (Plus (Class k)) as r eqn:Hr. revert Hr.
  induction H; intros Hr; try discriminate Hr; injection Hr as ->.
  - invert H. cbn [allChars one].
    match goal with Hk : inClass _ _ = true |- _ => rewrite Hk end.
    split; [reflexivity|]. split; [discriminate | reflexivity].
  - invert H. destruct (IHMatch2 eq_refl) as (-> & Hne & Hall).
    split; [reflexivity|]. split; [discriminate|].
    unfold one. rewrite append_cons. cbn [allChars].
    change ("" +:+ m2) with m2.
    match goal with Hk : inClass _ _ = true |- _ => rewrite Hk end.
    rewrite Hall. reflexivity.
Qed.

Lemma orderGrammar_inv (m : string) (c c' : Captures) :
  Match orderGrammar m c c' ->
  exists ws1 p ws2 a pc,
    m = ws1 +:+ p +:+ ws2 +:+ a +:+ pc
    /\ p <> "" /\ allChars Char.isWord p = true
    /\ decimalShape a
    /\ ((pc = "" /\ c' = (2, a) :: (1, p) :: c)%nat
        \/ (pc = "%" /\ c' = (3, "%") :: (2, a) :: (1, p) :: c)%nat).
Proof.
  unfold orderGrammar. intros H.
  apply Match_Cat_inv in H. destruct H as (ws1 & m1 & c1 & -> & Hws1 & H).
  apply Match_PlusClass_inv in Hws1. destruct Hws1 as (-> & _ & _).
  apply Match_Cat_inv in H. destruct H as (p & m2 & c2 & -> & Hp & H).
  apply Match_Group_inv in Hp. destruct Hp as (c1' & Hp & ->).
  apply Match_PlusClass_inv in Hp. destruct Hp as (-> & Hpne & Hpall).
  apply Match_Cat_inv in H. destruct H as (ws2 & m3 & c3 & -> & Hws2 & H).
  apply Match_PlusClass_inv in Hws2. destruct Hws2 as (-> & _ & _).
  apply Match_Cat_inv in H. destruct H as (a & pc & c4 & -> & Ha & Hpc).
  apply Match_Group_inv in Ha. destruct Ha as (c3' & Ha & ->).
  apply Match_Cat_inv in Ha. destruct Ha as (ip & fr & c5 & -> & Hip & Hfr).
  apply Match_PlusClass_inv in Hip. destruct Hip as (-> & Hipne & Hipall).
  assert (Hdec : decimalShape (ip +:+ fr) /\ c3' = (1, p) :: c).
  { apply Match_Quest_inv in Hfr. destruct Hfr as [(-> & ->)|Hfr].
    - split; [|reflexivity]. exists ip, "". rewrite append_nil_r.
      split; [exact Hipne|]. split; [exact Hipall|]. left. reflexivity.
    - apply Match_Cat_inv in Hfr. destruct Hfr as (dot & fp & c6 & -> & Hdot & Hfp).
      apply Match_Lit_inv in Hdot. destruct Hdot as (-> & ->).
      apply Match_PlusClass_inv in Hfp. destruct Hfp as (-> & Hfpne & Hfpall).
      split; [|reflexivity]. exists ip, fp.
      split; [exact Hipne|]. split; [exact Hipall|]. right.
      split; [exact Hfpne|]. split; [exact Hfpall | reflexivity]. }
  destruct Hdec as (Hdec & ->).
  exists ws1, p, ws2, (ip +:+ fr), pc.
  split; [reflexivity|]. split; [exact Hpne|]. split; [exact Hpall|].
  split; [exact Hdec|].
  apply Match_Quest_inv in Hpc. destruct Hpc as [(-> & ->)|Hpc].
  - left. split; reflexivity.
  - apply Match_Group_inv in Hpc. destruct Hpc as (c7 & Hpc & ->).
    apply Match_Lit_inv in Hpc. destruct Hpc as (-> & ->).
    right. split; reflexivity.
Qed.

Lemma grammar_inv (side : SideType) (m : string) (caps : Captures) :
  Match (Group 0 "" (grammarOf side)) m [] caps ->
  exists p a pc,
    capture 0 caps = Some m
    /\ capture 1 caps = Some p
    /\ capture 2 caps = Some a
    /\ default "" (capture 3 caps) = pc
    /\ p <> "" /\ allChars Char.isWord p = true
    /\ decimalShape a
    /\ (pc = "" \/ pc = "%").
Proof.
  intros H. apply Match_Group_inv in H. destruct H as (c1 & H & ->).
  assert (Hg : exists m', Match orderGrammar m' [] c1).
  { destruct side; cbn [grammarOf] in H; unfold buyRegexp, sellRegexp in H;
      repeat (apply Match_Cat_inv in H;
              destruct H as (? & ? & ? & -> & Hl & H);
              apply Match_Lit_inv in Hl; destruct Hl as (-> & ->));
      eexists; exact H. }
  destruct Hg as (m' & Hg). apply orderGrammar_inv in Hg.
  destruct Hg as (ws1 & p & ws2 & a & pc & _ & Hpne & Hpall & Hdec & Hpc).
  exists p, a, pc.
  destruct Hpc as [(-> & ->)|(-> & ->)]; cbn [capture Nat.eqb default];
    repeat split; auto.
Qed.

Lemma FindStringSubmatch_find (side : SideType) (txt : string) :
  FindStringSubmatch (grammarOf side) txt <> [] ->
  exists caps,
    find (grammarOf side) txt = Some caps
    /\ FindStringSubmatch (grammarOf side) txt
       = [default "" (capture 0 caps); default "" (capture 1 caps);
          default "" (capture 2 caps); default "" (capture 3 caps)].
Proof.
  unfold FindStringSubmatch.
  destruct (find (grammarOf side) txt) as [caps|]; [|congruence].
  intros _. exists caps. split; [reflexivity|]. destruct side; reflexivity.
Qed.

Lemma grammar_productive (side : SideType) : productive (Group 0 "" (grammarOf side)) = true.
Proof. destruct side; reflexivity. Qed.

(** What a successful [FindStringSubmatch] of the order grammars returns:
    the leftmost match, its three groups, and the same on the matched text
    alone. *)
Lemma FindStringSubmatch_shape (side : SideType) (txt : string) :
  FindStringSubmatch (grammarOf side) txt <> [] ->
  exists before whole after p a pc caps,
    txt = before +:+ whole +:+ after
    /\ Match (Group 0 "" (grammarOf side)) whole [] caps
    /\ FindStringSubmatch (grammarOf side) txt = [whole; p; a; pc]
    /\ FindStringSubmatch (grammarOf side) whole = [whole; p; a; pc]
    /\ p <> "" /\ allChars Char.isWord p = true
    /\ decimalShape a
    /\ (pc = "" \/ pc = "%")
    /\ (forall b rest, txt = b +:+ rest ->
                       (String.length b < String.length before)%nat ->
                       matches (Group 0 "" (grammarOf side)) rest [] = []).
Proof.
  intros Hne. destruct (FindStringSubmatch_find side txt Hne) as (caps & Hfind & Hlist).
  destruct (find_some _ _ _ Hfind) as (before & s' & m & rest & tl & -> & Hm & Hleft).
  assert (Hin : In (m, caps, rest) (matches (Group 0 "" (grammarOf side)) s' []))
    by (rewrite Hm; left; reflexivity).
  apply matches_sound in Hin. destruct Hin as [-> HM].
  destruct (grammar_inv side m caps HM) as (p & a & pc & H0 & H1 & H2 & H3 & Hp).
  destruct (matches_head_alone _ _ _ _ _ _ (grammar_productive side) Hm) as (tl' & Halone).
  exists before, m, rest, p, a, pc, caps.
  split; [reflexivity|]. split; [exact HM|].
  rewrite Hlist, H0, H1, H2, H3. cbn [default].
  split; [reflexivity|]. split; [|split; [|split; [|split; [|split]]]]; try apply Hp.
  - assert (Hf : find (grammarOf side) m = Some caps).
    { destruct m as [|x m]; cbn [find]; rewrite Halone; reflexivity. }
    unfold FindStringSubmatch. rewrite Hf.
    replace (seq 0 (S (NumSubexp (grammarOf side)))) with [0; 1; 2; 3]%nat
      by (destruct side; reflexivity).
    cbn [map]. rewrite H0, H1, H2, H3. reflexivity.
  - exact Hleft.
Qed.

(** ** The amount is a numeral [ParseFloat] reads *)

Lemma readDigits_digits (d : string) :
  allChars Char.isDigit d = true ->
  forall acc n rest,
    exists acc', strconv.readDigits acc n (d +:+ rest)
                 = strconv.readDigits acc' (n + String.length d) rest.
Proof.
  induction d as [|x d IH]; intros Hall acc n rest.
  - exists acc. change ("" +:+ rest) with rest. cbn [String.length].
    rewrite Nat.add_0_r. reflexivity.
  - cbn [allChars] in Hall. apply andb_true_iff in Hall. destruct Hall as [Hx Hd].
    rewrite append_cons. cbn [strconv.readDigits String.length]. rewrite Hx.
    destruct (IH Hd (10 * acc + Char.digitVal x)%Z (S n) rest) as (acc' & Heq).
    exists acc'. rewrite Heq. f_equal. lia.
Qed.

Lemma readDecimal_decimal (a : string) :
  decimalShape a -> exists mant scale, strconv.readDecimal a = Some (mant, scale).
Proof.
  intros (ip & fp & Hipne & Hip & [->|(Hfpne & Hfp & ->)]); unfold strconv.readDecimal.
  - destruct (readDigits_digits ip Hip 0%Z 0%nat "") as (acc' & Heq).
    rewrite append_nil_r in Heq. rewrite Heq. cbn [strconv.readDigits].
    destruct ip as [|x ip]; [congruence|]. cbn [String.length Nat.add Nat.eqb].
    eexists _, _. reflexivity.
  - destruct (readDigits_digits ip Hip 0%Z 0%nat ("." +:+ fp)) as (acc' & Heq).
    rewrite Heq. change ("." +:+ fp) with (String "." fp).
    cbn [strconv.readDigits]. change (Char.isDigit ".") with false. cbv iota.
    destruct (readDigits_digits fp Hfp acc' 0%nat "") as (acc'' & Heq').
    rewrite append_nil_r in Heq'. rewrite Heq'. cbn [strconv.readDigits].
    destruct fp as [|y fp]; [congruence|].
    replace (0 + String.length ip + (0 + String.length (String y fp)) =? 0)%nat
      with false by (symmetry; apply Nat.eqb_neq; cbn [String.length]; lia).
    eexists _, _. reflexivity.
Qed.

(** ** From the match to the parsed intent *)

Lemma command_fields (side : SideType) (whole p a pc : string) :
  let command := namedGroups (SubexpNames (grammarOf side)) [whole; p; a; pc] in
  at_ command "pair" = p /\ at_ command "amount" = a /\ at_ command "percent" = pc.
Proof.
  intros command.
  assert (Hc : command = <["percent" := pc]> (<["amount" := a]> (<["pair" := p]> ∅)))
    by (destruct side; reflexivity).
  rewrite Hc. unfold at_. repeat split.
Qed.

Lemma parseOrder_matched (side : SideType) (txt whole p a pc : string) :
  FindStringSubmatch (grammarOf side) txt = [whole; p; a; pc] ->
  parseOrder (grammarOf side) txt =
    let '(amount, err) := strconv.ParseFloat a in
    match err with
    | Some e => inl (AmountError e)
    | None =>
        if leb amount zero then inl InvalidAmount
        else inr {| intentPair := strings.ToUpper p;
                    intentAmount := amount;
                    sizingMode := if (pc =? "")%string
                                  then Absolute else PercentOfPosition |}
    end.
Proof.
  intros Hm. unfold parseOrder. rewrite Hm. cbn [length Nat.eqb].
  destruct (command_fields side whole p a pc) as (-> & -> & ->).
  destruct (strconv.ParseFloat a) as [amount [e|]]; [reflexivity|].
  destruct (leb amount zero); [reflexivity|].
  destruct (pc =? "")%string; reflexivity.
Qed.

(** A handler reads the text only through the match. *)
Lemma handleOf_same_match (side : SideType) (t : telegram) (sender : User)
    (txt txt' : string) :
  FindStringSubmatch (grammarOf side) txt = FindStringSubmatch (grammarOf side) txt' ->
  handleOf side t {| ctxSender := sender; ctxText := txt |}
  = handleOf side t {| ctxSender := sender; ctxText := txt' |}.
Proof.
  intros H. destruct side; cbn [handleOf grammarOf] in *;
    unfold BuyHandle, SellHandle; cbn [ctxText ctxSender]; rewrite H; reflexivity.
Qed.

Lemma grammar_matches_somewhere (side : SideType) (m rest : string) (caps : Captures) :
  Match (grammarOf side) m [] caps ->
  matches (Group 0 "" (grammarOf side)) (m +:+ rest) [] <> [].
Proof.
  intros HM Hnil.
  assert (Hin : In (m, (0%nat, m) :: caps, rest)
                   (matches (Group 0 "" (grammarOf side)) (m +:+ rest) [])).
  { apply matches_complete; [constructor; exact HM | apply grammar_productive]. }
  rewrite Hnil in Hin. destruct Hin.
Qed.

Lemma buy_absolute_calls (W : World) (t : telegram) (c : Context) (w : state W)
    (P : string) (A : float64) :
  parseOrder buyRegexp (ctxText c)
    = inr {| intentPair := P; intentAmount := A; sizingMode := Absolute |} ->
  engineCalls (traceOf (run W (BuyHandle t c) w))
  = [ControllerCreateOrderMarketQuote SideTypeBuy P A].
Proof.
  intros Hparse. rewrite (handle_parse SideTypeBuy). cbn [grammarOf]. rewrite Hparse.
  cbn [resolveOf]. unfold resolveBuy. cbn [sizingMode intentPair intentAmount]. run_step.
  destruct (answer W (ControllerCreateOrderMarketQuote SideTypeBuy P A) w)
    as [[order [e|]] w1]; cbn [run]; [reflexivity|].
  destruct (answer W (LogInfo _) w1) as [[] w2]. reflexivity.
Qed.

(** C5, as stated, fails: a text can match the grammar and yield no intent.
    A buy command whose amount has 310 digits matches, and parsing ends in
    the range error of [ParseFloat]: the amount is not parsed to a number.
    "/buy BTCUSDT 0" matches, with amount 0, and parsing ends in the
    validation error. *)
Lemma C5_match_without_intent_counterexample :
  FindStringSubmatch buyRegexp ("/buy BTCUSDT 1" +:+ zeros 309)
  = ["/buy BTCUSDT 1" +:+ zeros 309; "BTCUSDT"; "1" +:+ zeros 309; ""]
  /\ parseOrder buyRegexp ("/buy BTCUSDT 1" +:+ zeros 309)
     = inl (AmountError (NumError "ParseFloat" ("1" +:+ zeros 309) ErrRange))
  /\ FindStringSubmatch buyRegexp "/buy BTCUSDT 0" = ["/buy BTCUSDT 0"; "BTCUSDT"; "0"; ""]
  /\ parseOrder buyRegexp "/buy BTCUSDT 0" = inl InvalidAmount.
Proof. vm_compute. repeat split; reflexivity. Qed.

(** C5, amended.  Parsing is a function of the text.  On every text that
    matches the buy or the sell grammar the match has the three groups
    pair, amount and percent, the percent group is empty or "%", and the
    amount group is a decimal numeral.  With [amount] the float64 nearest
    to that numeral: when [amount] is out of range parsing fails with the
    range error of [ParseFloat]; when it is not above zero parsing fails
    with the validation error; otherwise the intent has the pair in upper
    case, [amount], and PercentOfPosition exactly when the percent group
    is "%".  "/buy BTCUSDT 100" gives BTCUSDT, 100, Absolute and
    "/buy btcusdt 50%" gives BTCUSDT, 50, PercentOfPosition. *)
Theorem C5_parse_amended :
  (forall (side : SideType) (txt : string),
      FindStringSubmatch (grammarOf side) txt <> [] ->
      exists whole p a pc mant scale,
        FindStringSubmatch (grammarOf side) txt = [whole; p; a; pc]
        /\ (pc = "" \/ pc = "%")
        /\ allChars Char.isWord p = true
        /\ strconv.readDecimal a = Some (mant, scale)
        /\ parseOrder (grammarOf side) txt =
             let amount := ofRatio mant (strconv.pow10 scale) in
             if isInf amount
             then inl (AmountError (NumError "ParseFloat" a ErrRange))
             else if leb amount zero then inl InvalidAmount
             else inr {| intentPair := strings.ToUpper p;
                         intentAmount := amount;
                         sizingMode := if (pc =? "")%string
                                       then Absolute else PercentOfPosition |})
  /\ parseOrder buyRegexp "/buy BTCUSDT 100"
     = inr {| intentPair := "BTCUSDT"; intentAmount := ofZ 100; sizingMode := Absolute |}
  /\ parseOrder buyRegexp "/buy btcusdt 50%"
     = inr {| intentPair := "BTCUSDT"; intentAmount := ofZ 50;
              sizingMode := PercentOfPosition |}.
Proof.
  split; [|split; vm_compute; reflexivity].
  intros side txt Hne.
  destruct (FindStringSubmatch_shape side txt Hne)
    as (before & whole & after & p & a & pc & caps & _ & _ & Hm & _ & _ & Hp & Hdec & Hpc & _).
  destruct (readDecimal_decimal a Hdec) as (mant & scale & Hread).
  exists whole, p, a, pc, mant, scale.
  split; [exact Hm|]. split; [exact Hpc|]. split; [exact Hp|]. split; [exact Hread|].
  rewrite (parseOrder_matched side txt whole p a pc Hm).
  unfold strconv.ParseFloat. rewrite Hread. cbv zeta.
  destruct (isInf (ofRatio mant (strconv.pow10 scale))); reflexivity.
Qed.

(** C5 amended, at "/sell ethusdt 12.5%". *)
Lemma C5_parse_amended_witness :
  FindStringSubmatch sellRegexp "/sell ethusdt 12.5%" <> []
  /\ exists whole p a pc mant scale,
       FindStringSubmatch sellRegexp "/sell ethusdt 12.5%" = [whole; p; a; pc]
       /\ (pc = "" \/ pc = "%")
       /\ allChars Char.isWord p = true
       /\ strconv.readDecimal a = Some (mant, scale)
       /\ parseOrder sellRegexp "/sell ethusdt 12.5%" =
            let amount := ofRatio mant (strconv.pow10 scale) in
            if isInf amount
            then inl (AmountError (NumError "ParseFloat" a ErrRange))
            else if leb amount zero then inl InvalidAmount
            else inr {| intentPair := strings.ToUpper p;
                        intentAmount := amount;
                        sizingMode := if (pc =? "")%string
                                      then Absolute else PercentOfPosition |}.
Proof.
  assert (Hne : FindStringSubmatch sellRegexp "/sell ethusdt 12.5%" <> [])
    by (vm_compute; discriminate).
  split; [exact Hne|].
  exact (proj1 C5_parse_amended SideTypeSell "/sell ethusdt 12.5%" Hne).
Defined.

(** C10, as stated, fails: a text can contain a piece that the grammar
    matches and still not parse to an order.  "/buy BTCUSDT " followed by a
    1, 309 zeros and "abc" contains such a piece; the match succeeds, the
    amount is out of range, and the handler ends with the range error of
    [ParseFloat] without a call to the engine.  On "/buy BTCUSDT 0abc" the
    match succeeds with amount 0 and the handler replies "Invalid amount",
    again without a call to the engine. *)
Lemma C10_match_without_order_counterexample :
  let huge := "/buy BTCUSDT 1" +:+ zeros 309 in
  In (huge, [(2, "1" +:+ zeros 309); (1, "BTCUSDT")]%nat, "abc")
     (matches buyRegexp (huge +:+ "abc") [])
  /\ run (scripted calm) (BuyHandle (operators [1]%Z) (from 1 (huge +:+ "abc")))
         StatusRunning
     = (Some (NumError "ParseFloat" ("1" +:+ zeros 309) ErrRange),
        [Event (LogError [AError (Some (NumError "ParseFloat" ("1" +:+ zeros 309) ErrRange))]) tt;
         Event (ClientSend {| ID := 1 |}
                  (errorMessage (Some (NumError "ParseFloat" ("1" +:+ zeros 309) ErrRange)))
                  false) None],
        StatusRunning)
  /\ In ("/buy BTCUSDT 0", [(2, "0"); (1, "BTCUSDT")]%nat, "abc")
        (matches buyRegexp "/buy BTCUSDT 0abc" [])
  /\ run (scripted calm) (BuyHandle (operators [1]%Z) (from 1 "/buy BTCUSDT 0abc"))
         StatusRunning
     = (None,
        [Event (ClientSend {| ID := 1 |} [Literal "Invalid amount"] false) None],
        StatusRunning).
Proof. vm_compute. repeat split; auto. Qed.

(** C10, amended.  The grammars are not anchored.  When a text contains,
    anywhere, a piece that the buy or the sell grammar matches,
    [FindStringSubmatch] succeeds: it returns the match that starts first,
    no piece starting before it matches, and the text around the match is
    ignored, the groups and the whole behaviour of the handler being those
    of the matched text alone (an order when the matched amount is in range
    and above zero).  On "/buy BTCUSDT 100abc" the handler asks for a market
    order by quote of 100 on BTCUSDT. *)
Theorem C10_unanchored_grammar :
  (forall (side : SideType) (t : telegram) (sender : User)
          (pre m suf : string) (caps : Captures),
      Match (grammarOf side) m [] caps ->
      let txt := pre +:+ m +:+ suf in
      exists before whole after p a pc,
        txt = before +:+ whole +:+ after
        /\ (String.length before <= String.length pre)%nat
        /\ (forall b m' rest' caps',
               txt = b +:+ m' +:+ rest' ->
               (String.length b < String.length before)%nat ->
               ~ Match (grammarOf side) m' [] caps')
        /\ FindStringSubmatch (grammarOf side) txt = [whole; p; a; pc]
        /\ FindStringSubmatch (grammarOf side) whole = [whole; p; a; pc]
        /\ handleOf side t {| ctxSender := sender; ctxText := txt |}
           = handleOf side t {| ctxSender := sender; ctxText := whole |})
  /\ (forall (W : World) (w : state W) (t : telegram) (sender : User),
         engineCalls (traceOf (run W (BuyHandle t {| ctxSender := sender;
                                                     ctxText := "/buy BTCUSDT 100abc" |}) w))
         = [ControllerCreateOrderMarketQuote SideTypeBuy "BTCUSDT" (ofZ 100)]).
Proof.
  split.
  - intros side t sender pre m suf caps HM txt. subst txt.
    pose proof (grammar_matches_somewhere side m suf caps HM) as Hsome.
    assert (Hne : FindStringSubmatch (grammarOf side) (pre +:+ m +:+ suf) <> []).
    { unfold FindStringSubmatch.
      pose proof (find_finds (grammarOf side) pre (m +:+ suf) Hsome) as Hf.
      destruct (find (grammarOf side) (pre +:+ m +:+ suf)); [|congruence].
      cbn [seq map]. discriminate. }
    destruct (FindStringSubmatch_shape side _ Hne)
      as (before & whole & after & p & a & pc & caps' & Htxt & _ & Hm & Hw & _ & _ & _ & _ & Hleft).
    exists before, whole, after, p, a, pc.
    split; [exact Htxt|]. split; [|split; [|split; [exact Hm|split; [exact Hw|]]]].
    + destruct (Nat.le_gt_cases (String.length before) (String.length pre)) as [Hle|Hgt];
        [exact Hle|].
      exfalso. apply Hsome. apply (Hleft pre (m +:+ suf) eq_refl Hgt).
    + intros b m' rest' caps'' Hb Hlt HM'.
      apply (grammar_matches_somewhere side m' rest' caps'' HM').
      apply (Hleft b (m' +:+ rest') Hb Hlt).
    + apply handleOf_same_match. rewrite Hm, Hw. reflexivity.
  - intros W w t sender. apply buy_absolute_calls. vm_compute. reflexivity.
Qed.

(** C10 amended, at a sell command in the middle of a sentence. *)
Lemma C10_unanchored_grammar_witness :
  Match sellRegexp "/sell eth 7%" [] [(3, "%"); (2, "7"); (1, "eth")]%nat
  /\ FindStringSubmatch sellRegexp "please /sell eth 7%, thanks"
     = ["/sell eth 7%"; "eth"; "7"; "%"]
  /\ exists before whole after p a pc,
       "please /sell eth 7%, thanks" = before +:+ whole +:+ after
       /\ (String.length before <= String.length "please ")%nat
       /\ (forall b m' rest' caps',
              "please /sell eth 7%, thanks" = b +:+ m' +:+ rest' ->
              (String.length b < String.length before)%nat ->
              ~ Match sellRegexp m' [] caps')
       /\ FindStringSubmatch sellRegexp "please /sell eth 7%, thanks" = [whole; p; a; pc]
       /\ FindStringSubmatch sellRegexp whole = [whole; p; a; pc]
       /\ SellHandle (operators [1; 2]%Z) (from 1 "please /sell eth 7%, thanks")
          = SellHandle (operators [1; 2]%Z) (from 1 whole).
Proof.
  assert (HM : Match sellRegexp "/sell eth 7%" [] [(3, "%"); (2, "7"); (1, "eth")]%nat).
  { assert (Hin : In ("/sell eth 7%", [(3, "%"); (2, "7"); (1, "eth")]%nat, "")
                     (matches sellRegexp "/sell eth 7%" []))
      by (vm_compute; left; reflexivity).
    apply matches_sound in Hin. exact (proj2 Hin). }
  split; [exact HM|]. split; [vm_compute; reflexivity|].
  exact (proj1 C10_unanchored_grammar SideTypeSell (operators [1; 2]%Z) {| ID := 1 |}
           "please " "/sell eth 7%" ", thanks" _ HM).
Defined.

(** * Further properties of the handlers *)

Lemma submissions_none (tr : list event) :
  Forall (fun e => isSend (callOf e) = true \/ isLogError (callOf e) = true) tr ->
  submissions tr = [].
Proof.
  induction 1 as [|e tr He _ IH]; [reflexivity|].
  unfold submissions in *. cbn [omap list_omap].
  destruct e as [c r]. cbn [callOf] in He.
  destruct c; cbn in He; destruct He as [He|He]; try discriminate He;
    cbn [submissionOf]; exact IH.
Qed.

(** X1.  The order path is silent.  When a buy or sell command parses to
    an intent and, in PercentOfPosition mode, the position lookup succeeds,
    the handler submits exactly one order, returns exactly the error that
    submission returned ([nil] on success), and sends no message to
    anybody: neither a confirmation nor, on a failed submission, a
    broadcast. *)
Theorem order_path_is_silent (W : World) (t : telegram) (c : Context) (w : state W)
    (side : SideType) (i : ParsedOrderIntent) :
  parseOrder (grammarOf side) (ctxText c) = inr i ->
  (sizingMode i = PercentOfPosition ->
   snd (fst (answer W (ControllerPosition (intentPair i)) w)) = None) ->
  let r := run W (handleOf side t c) w in
  sends (traceOf r) = []
  /\ submissions (traceOf r) = [resultOf r].
Proof.
  intros Hparse Hpos r. subst r. rewrite handle_parse, Hparse.
  destruct i as [P A mode]. cbn [sizingMode intentPair] in Hpos.
  destruct side, mode; cbn [resolveOf]; unfold resolveBuy, resolveSell;
    cbn [sizingMode intentPair intentAmount]; run_step.
  - destruct (answer W (ControllerCreateOrderMarketQuote SideTypeBuy P A) w)
      as [[order [e|]] w1]; cbn [run]; [split; reflexivity|].
    destruct (answer W (LogInfo _) w1) as [[] w2]. split; reflexivity.
  - specialize (Hpos eq_refl).
    destruct (answer W (ControllerPosition P) w) as [[[asset quote] perr] w1].
    cbn [fst snd] in Hpos. subst perr. cbn [run bind].
    destruct (answer W (ControllerCreateOrderMarketQuote SideTypeBuy P _) w1)
      as [[order [e|]] w2]; cbn [run]; [split; reflexivity|].
    destruct (answer W (LogInfo _) w2) as [[] w3]. split; reflexivity.
  - destruct (answer W (ControllerCreateOrderMarketQuote SideTypeSell P A) w)
      as [[order [e|]] w1]; cbn [run]; [split; reflexivity|].
    destruct (answer W (LogInfo _) w1) as [[] w2]. split; reflexivity.
  - specialize (Hpos eq_refl).
    destruct (answer W (ControllerPosition P) w) as [[[asset quote] perr] w1].
    cbn [fst snd] in Hpos. subst perr. cbn [run bind].
    destruct (answer W (ControllerCreateOrderMarket SideTypeSell P _) w1)
      as [[order [e|]] w2]; cbn [run]; [split; reflexivity|].
    destruct (answer W (LogInfo _) w2) as [[] w3]. split; reflexivity.
Qed.

(** X1 at "/sell BTCUSDT 50%" in the scripted environment. *)
Lemma order_path_is_silent_witness :
  parseOrder sellRegexp "/sell BTCUSDT 50%"
  = inr {| intentPair := "BTCUSDT"; intentAmount := ofZ 50;
           sizingMode := PercentOfPosition |}
  /\ sends (traceOf (run (scripted calm)
                       (SellHandle (operators [1; 2]%Z) (from 1 "/sell BTCUSDT 50%"))
                       StatusRunning)) = []
  /\ submissions (traceOf (run (scripted calm)
                             (SellHandle (operators [1; 2]%Z) (from 1 "/sell BTCUSDT 50%"))
                             StatusRunning)) = [None].
Proof.
  split; [vm_compute; reflexivity|].
  exact (order_path_is_silent (scripted calm) (operators [1; 2]%Z)
           (from 1 "/sell BTCUSDT 50%") StatusRunning SideTypeSell
           {| intentPair := "BTCUSDT"; intentAmount := ofZ 50;
              sizingMode := PercentOfPosition |}
           ltac:(vm_compute; reflexivity) (fun _ => eq_refl)).
Defined.

(** X2.  A failed position lookup submits nothing.  When a buy or sell
    command parses to an intent in PercentOfPosition mode and the position
    lookup returns an error, the lookup is the only call to the engine, no
    order is submitted and the handler returns that error.  A buy then
    broadcasts the error to every operator of the allow-list; a sell sends
    nothing. *)
Theorem position_failure_submits_nothing (W : World) (t : telegram) (c : Context)
    (w : state W) (side : SideType) (P : string) (A : float64) (e : Error) :
  parseOrder (grammarOf side) (ctxText c)
    = inr {| intentPair := P; intentAmount := A; sizingMode := PercentOfPosition |} ->
  snd (fst (answer W (ControllerPosition P) w)) = Some e ->
  let r := run W (handleOf side t c) w in
  resultOf r = Some e
  /\ engineCalls (traceOf r) = [ControllerPosition P]
  /\ submissions (traceOf r) = []
  /\ sends (traceOf r)
     = match side with
       | SideTypeBuy =>
           map (fun user => ({| ID := int64 user |}, errorMessage (Some e)))
               (Users (Telegram (settings t)))
       | SideTypeSell => []
       end.
Proof.
  intros Hparse Hpos r. subst r. rewrite handle_parse, Hparse.
  destruct side; cbn [resolveOf]; unfold resolveBuy, resolveSell;
    cbn [sizingMode intentPair intentAmount]; run_step;
    destruct (answer W (ControllerPosition P) w) as [[[asset quote] perr] w1];
    cbn [fst snd] in Hpos; subst perr; cbn [run bind].
  - destruct (answer W (LogError _) w1) as [[] w2].
    rewrite OnError_Notify.
    pose proof (Notify_run W t (errorMessage (Some e)) w2) as (Hs & He & _).
    pose proof (sendEach_only_sends_and_logs W (Users (Telegram (settings t)))
                  (errorMessage (Some e)) false w2) as Hall.
    apply submissions_none in Hall. unfold Notify in *. rewrite !run_bind.
    destruct (run W (sendEach _ (errorMessage (Some e)) false) w2) as [[[] tr] w3].
    cbn [run]. unfold resultOf, traceOf, sends, engineCalls, submissions in *.
    cbn [fst snd] in *. rewrite !app_nil_r.
    cbn [omap list_omap sendOf submissionOf map List.filter callOf isEngineCall].
    rewrite Hs, He, Hall. repeat split.
  - repeat split.
Qed.

(** X2 at "/buy BTCUSDT 50%" with the position lookup failing. *)
Lemma position_failure_submits_nothing_witness :
  parseOrder buyRegexp "/buy BTCUSDT 50%"
  = inr {| intentPair := "BTCUSDT"; intentAmount := ofZ 50;
           sizingMode := PercentOfPosition |}
  /\ engineCalls (traceOf (run (scripted positionDown)
                             (BuyHandle (operators [1; 2]%Z) (from 1 "/buy BTCUSDT 50%"))
                             StatusRunning)) = [ControllerPosition "BTCUSDT"].
Proof.
  split; [vm_compute; reflexivity|].
  exact (proj1 (proj2
           (position_failure_submits_nothing (scripted positionDown)
              (operators [1; 2]%Z) (from 1 "/buy BTCUSDT 50%") StatusRunning
              SideTypeBuy "BTCUSDT" (ofZ 50) engineDown
              ltac:(vm_compute; reflexivity) eq_refl))).
Defined.

(** X3.  /help.  When the client fails to list the commands, the handler
    returns that error and the only messages are the broadcast of the error
    to the operators.  Otherwise exactly one message is sent, to the
    requesting sender: one line "/text - description" per command, in
    order, joined by line feeds (the empty text when there is no command);
    the handler returns what that send returned, and a failed send is not
    broadcast. *)
Theorem HelpHandle_reply (W : World) (t : telegram) (c : Context) (w : state W) :
  let r := run W (HelpHandle t c) w in
  match fst (answer W ClientCommands w) with
  | (_, Some e) =>
      resultOf r = Some e
      /\ sends (traceOf r)
         = map (fun user => ({| ID := int64 user |}, errorMessage (Some e)))
               (Users (Telegram (settings t)))
  | (commands, None) =>
      sends (traceOf r)
      = [(ctxSender c,
          Join (map (fun command =>
                       Sprintf "/%s - %s"
                         [AString (CmdText command); AString (Description command)])
                    commands) "
")]
      /\ deliveries (traceOf r) = [resultOf r]
  end.
Proof.
  intros r. subst r. unfold HelpHandle. run_step.
  destruct (answer W ClientCommands w) as [[commands [e|]] w1]; cbn [fst run bind].
  - destruct (answer W (LogError _) w1) as [[] w2].
    rewrite OnError_Notify, run_bind.
    pose proof (Notify_run W t (errorMessage (Some e)) w2) as (Hs & _ & _).
    destruct (run W (Notify t (errorMessage (Some e))) w2) as [[[] tr] w3].
    cbn [run]. unfold resultOf, traceOf, sends in *. cbn [fst snd] in *.
    rewrite app_nil_r. cbn [omap list_omap sendOf]. split; [reflexivity | exact Hs].
  - destruct (answer W (ClientSend _ _ _) w1) as [[e|] w2]; cbn [run].
    + destruct (answer W (LogError _) w2) as [[] w3]. split; reflexivity.
    + split; reflexivity.
Qed.

Lemma profitEach_run (W : World) (c : Context) (results : list (string * string))
    (w : state W) :
  sends (traceOf (run W (profitEach c results) w))
  = map (fun '(p, summary) =>
           (ctxSender c, [Sprintf "*PAIR*: `%s`
`%s`" [AString p; AString summary]])) results
  /\ engineCalls (traceOf (run W (profitEach c results) w)) = [].
Proof.
  revert w. induction results as [|[p summary] rest IH]; intros w; cbn [profitEach map].
  - split; reflexivity.
  - run_step. destruct (answer W (ClientSend _ _ _) w) as [err w1].
    rewrite run_bind.
    pose proof (logIfError_run W err w1) as (Hs & He & _).
    destruct (run W (logIfError err) w1) as [[[] tr1] w2].
    specialize (IH w2). destruct IH as [IHs IHe].
    destruct (run W (profitEach c rest) w2) as [[[] tr2] w3].
    unfold traceOf, sends, engineCalls in *. cbn [fst snd] in *.
    cbn [omap list_omap sendOf map List.filter callOf isEngineCall].
    rewrite omap_app, map_app, List.filter_app, Hs, He, IHs, IHe.
    split; reflexivity.
Qed.

(** X4.  /profit.  With no result recorded the handler sends "No trades
    registered." to the requesting sender and returns what that send
    returned.  Otherwise it sends one message per recorded pair, in the
    order the results are visited, all to the requesting sender, and
    returns [nil] whatever the sends returned: failed sends are logged
    only. *)
Theorem ProfitHandle_reports (W : World) (t : telegram) (c : Context) (w : state W) :
  let r := run W (ProfitHandle t c) w in
  match fst (answer W ControllerResults w) with
  | [] =>
      sends (traceOf r) = [(ctxSender c, [Literal "No trades registered."])]
      /\ deliveries (traceOf r) = [resultOf r]
  | results =>
      sends (traceOf r)
      = map (fun '(p, summary) =>
               (ctxSender c, [Sprintf "*PAIR*: `%s`
`%s`" [AString p; AString summary]])) results
      /\ resultOf r = None
  end.
Proof.
  intros r. subst r. unfold ProfitHandle. run_step.
  destruct (answer W ControllerResults w) as [[|x results] w1]; cbn [fst length Nat.eqb].
  - cbn [run bind]. destruct (answer W (ClientSend _ _ _) w1) as [err w2].
    rewrite run_bind.
    pose proof (logIfError_run W err w2) as (Hs & _).
    assert (Hd : deliveries (traceOf (run W (logIfError err) w2)) = []).
    { destruct err; unfold logIfError; run_step;
        [destruct (answer W (LogError _) w2) as [[] w3]|]; reflexivity. }
    destruct (run W (logIfError err) w2) as [[[] tr1] w3].
    cbn [run]. unfold resultOf, traceOf, sends, deliveries in *. cbn [fst snd] in *.
    rewrite app_nil_r. cbn [omap list_omap sendOf deliveryOf]. rewrite Hs, Hd.
    split; reflexivity.
  - rewrite run_bind.
    pose proof (profitEach_run W c (x :: results) w1) as (Hs & _).
    destruct (run W (profitEach c (x :: results)) w1) as [[[] tr1] w2].
    cbn [run]. unfold resultOf, traceOf, sends in *. cbn [fst snd] in *.
    rewrite app_nil_r. cbn [omap list_omap sendOf]. split; [exact Hs | reflexivity].
Qed.

Lemma sendEach_menus (W : World) (users : list Z) (what : text) (menu : bool)
    (w : state W) :
  omap menuOf (traceOf (run W (sendEach users what menu) w))
  = replicate (length users) menu.
Proof.
  revert w. induction users as [|user rest IH]; intros w; cbn [sendEach length replicate].
  - reflexivity.
  - run_step. destruct (answer W (ClientSend _ _ _) w) as [err w1]. rewrite run_bind.
    assert (Hm : omap menuOf (traceOf (run W (logIfError err) w1)) = []).
    { destruct err; unfold logIfError; run_step;
        [destruct (answer W (LogError _) w1) as [[] w2]|]; reflexivity. }
    destruct (run W (logIfError err) w1) as [[[] tr1] w2].
    specialize (IH w2).
    destruct (run W (sendEach rest what menu) w2) as [[[] tr2] w3].
    unfold traceOf in *. cbn [fst snd] in *.
    cbn [omap list_omap menuOf]. rewrite omap_app, Hm, IH. reflexivity.
Qed.

(** X5.  [Start].  The poller is launched first; then "Bot initialized."
    is handed to the client once for every entry of the allow-list, in
    order, each time with the default menu, whatever the earlier sends
    returned; no call is made to the engine. *)
Theorem Start_greets_every_operator (W : World) (t : telegram) (w : state W) :
  let r := run W (Start t) w in
  (exists rest, traceOf r = Event ClientStart tt :: rest)
  /\ sends (traceOf r)
     = map (fun user => ({| ID := int64 user |}, [Literal "Bot initialized."]))
           (Users (Telegram (settings t)))
  /\ omap menuOf (traceOf r) = replicate (length (Users (Telegram (settings t)))) true
  /\ engineCalls (traceOf r) = [].
Proof.
  intros r. subst r. unfold Start. run_step.
  destruct (answer W ClientStart w) as [[] w1].
  pose proof (sendEach_sends W (Users (Telegram (settings t)))
                [Literal "Bot initialized."] true w1) as Hs.
  pose proof (sendEach_menus W (Users (Telegram (settings t)))
                [Literal "Bot initialized."] true w1) as Hm.
  pose proof (sendEach_only_sends_and_logs W (Users (Telegram (settings t)))
                [Literal "Bot initialized."] true w1) as Hall.
  apply no_engine_call in Hall. destruct Hall as [He _].
  destruct (run W (sendEach _ _ true) w1) as [[[] tr] w2].
  unfold traceOf, sends, engineCalls in *. cbn [fst snd] in *.
  cbn [omap list_omap sendOf menuOf map List.filter callOf isEngineCall].
  split; [eexists; reflexivity|]. split; [exact Hs|]. split; [exact Hm | exact He].
Qed.

(** X6.  [OnOrder].  One text is built from the order and handed to the
    client once for every entry of the allow-list, the same for all.  The
    title names the pair for a new, a filled, a canceled and a rejected
    order, a canceled and a rejected order having the same title; for any
    other status the title is empty and the notification is sent all the
    same.  No call is made to the engine. *)
Theorem OnOrder_broadcast (W : World) (t : telegram) (order : Order) (w : state W) :
  let r := run W (OnOrder t order) w in
  exists title,
    sends (traceOf r)
    = map (fun user => ({| ID := int64 user |},
                        [Sprintf "%s
-----
%s" [title; AOrder order]]))
          (Users (Telegram (settings t)))
    /\ engineCalls (traceOf r) = []
    /\ match OrderStatus order with
       | OrderStatusTypeNew =>
           title = ASprintf "🆕 NEW ORDER - %s" [AString (OrderPair order)]
       | OrderStatusTypeFilled =>
           title = ASprintf "✅ ORDER FILLED - %s" [AString (OrderPair order)]
       | OrderStatusTypeCanceled | OrderStatusTypeRejected =>
           title = ASprintf "❌ ORDER CANCELED / REJECTED - %s" [AString (OrderPair order)]
       | OrderStatusTypeOther _ => title = AString ""
       end.
Proof.
  intros r. subst r. unfold OnOrder.
  match goal with
  | |- context [Notify t [Sprintf _ [?ti; _]]] => exists ti
  end.
  match goal with
  | |- context [Notify t ?msg] =>
      pose proof (Notify_run W t msg w) as (Hs & He & _)
  end.
  split; [exact Hs|]. split; [exact He|].
  destruct (OrderStatus order); reflexivity.
Qed.



(** ** Who receives messages *)

Lemma sendsOnlyTo_bind {A B : Type} (ok : User -> Prop) (p : prog A) (f : A -> prog B) :
  sendsOnlyTo ok p -> (forall a, sendsOnlyTo ok (f a)) -> sendsOnlyTo ok (bind p f).
Proof.
  intros Hp Hf. induction p as [a | c k IH]; cbn [bind sendsOnlyTo] in *.
  - apply Hf.
  - destruct Hp as [Hc Hk]. split; [exact Hc|]. intros r. apply IH, Hk.
Qed.

Lemma sendsOnlyTo_run {A : Type} (ok : User -> Prop) (W : World) (p : prog A)
    (w : state W) :
  sendsOnlyTo ok p ->
  Forall (fun x => ok (fst x)) (sends (traceOf (run W p w))).
Proof.
  revert w. induction p as [a | c k IH]; intros w Hp; cbn [run sendsOnlyTo] in *.
  - constructor.
  - destruct Hp as [Hc Hk]. destruct (answer W c w) as [r w1].
    specialize (IH r w1 (Hk r)).
    destruct (run W (k r) w1) as [[a tr] w2].
    unfold traceOf, sends in *. cbn [fst snd] in *.
    destruct c; cbn [omap list_omap sendOf]; try exact IH.
    constructor; [exact Hc | exact IH].
Qed.

Ltac narrow_step :=
  match goal with
  | |- True => exact I
  | |- senderOrOperator _ _ _ => left; reflexivity
  | |- _ /\ _ => split; [| intros ?]
  | |- sendsOnlyTo _ (Ret _) => exact I
  | |- sendsOnlyTo _ (Call _ _) => cbn [sendsOnlyTo]; split; [| intros ?]
  | |- sendsOnlyTo _ (bind _ _) => apply sendsOnlyTo_bind; [| intros ?]
  | |- sendsOnlyTo _ (match ?x with _ => _ end) => destruct x
  end.

Ltac narrow :=
  unfold mbind, prog_bind, mret, prog_ret, call_; cbn [bind];
  repeat (narrow_step; cbn [bind response] in * ).

Lemma logIfError_narrow (ok : User -> Prop) (err : error) :
  sendsOnlyTo ok (logIfError err).
Proof. unfold logIfError. narrow. Qed.

Lemma sendEach_narrow (t : telegram) (sender : User) (users : list Z)
    (what : text) (menu : bool) :
  (forall user, In user users -> In user (Users (Telegram (settings t)))) ->
  sendsOnlyTo (senderOrOperator t sender) (sendEach users what menu).
Proof.
  induction users as [|user rest IH]; intros Hsub; cbn [sendEach]; narrow.
  - right. apply (in_map (fun user => {| ID := int64 user |})). apply Hsub. left. reflexivity.
  - apply logIfError_narrow.
  - apply IH. intros u Hu. apply Hsub. right. exact Hu.
Qed.

Lemma OnError_narrow (t : telegram) (sender : User) (err : error) :
  sendsOnlyTo (senderOrOperator t sender) (OnError t err).
Proof. rewrite OnError_Notify. apply sendEach_narrow. auto. Qed.

Lemma reply_narrow (t : telegram) (sender : User) (what : text) (menu : bool) :
  sendsOnlyTo (senderOrOperator t sender) (reply sender what menu).
Proof. unfold reply. narrow. apply logIfError_narrow. Qed.

Lemma handleOf_narrow (side : SideType) (t : telegram) (c : Context) :
  sendsOnlyTo (senderOrOperator t (ctxSender c)) (handleOf side t c).
Proof.
  rewrite handle_parse.
  destruct (parseOrder (grammarOf side) (ctxText c)) as [[|e|]|i].
  - apply reply_narrow.
  - unfold escalate. narrow. apply OnError_narrow.
  - apply reply_narrow.
  - destruct side; cbn [resolveOf]; unfold resolveBuy, resolveSell;
      destruct (sizingMode i); narrow; apply OnError_narrow.
Qed.

Lemma balancePairs_narrow (t : telegram) (sender : User) (account : Account)
    (pairs : list string) (message : text) (quotesValue : gmap string float64)
    (total : float64) :
  sendsOnlyTo (senderOrOperator t sender)
              (balancePairs t account pairs message quotesValue total).
Proof.
  revert message quotesValue total.
  induction pairs as [|p rest IH]; intros message quotesValue total;
    cbn [balancePairs]; narrow.
  - apply OnError_narrow.
  - apply IH.
Qed.

Lemma profitEach_narrow (t : telegram) (c : Context) (results : list (string * string)) :
  sendsOnlyTo (senderOrOperator t (ctxSender c)) (profitEach c results).
Proof.
  induction results as [|[p summary] rest IH]; cbn [profitEach]; narrow.
  - apply logIfError_narrow.
  - exact IH.
Qed.

Lemma handlers_narrow (t : telegram) (endpoint : string) (h : Context -> prog error)
    (c : Context) :
  handlerOf (handlers t) endpoint = Some h ->
  sendsOnlyTo (senderOrOperator t (ctxSender c)) (h c).
Proof.
  unfold handlers. cbn [handlerOf].
  repeat match goal with
         | |- context [String.eqb ?a endpoint] =>
             destruct (String.eqb_spec a endpoint) as [<-|_]
         end; intros H; try discriminate H; injection H as <-.
  - unfold HelpHandle. narrow. apply OnError_narrow.
  - rewrite StartHandle_reply. narrow; apply reply_narrow.
  - rewrite StopHandle_reply. narrow; apply reply_narrow.
  - unfold StatusHandle. narrow. apply logIfError_narrow.
  - unfold BalanceHandle. narrow.
    + apply OnError_narrow.
    + apply balancePairs_narrow.
    + apply logIfError_narrow.
  - unfold ProfitHandle. narrow.
    + apply logIfError_narrow.
    + apply profitEach_narrow.
  - apply (handleOf_narrow SideTypeBuy).
  - apply (handleOf_narrow SideTypeSell).
Qed.

(** X8.  No message leaves the circle of operators.  Whatever update
    arrives and whatever the environment answers, every message sent while
    the update is dispatched goes either to the sender of the update, who
    then has passed the access filter, or to an entry of the allow-list. *)
Theorem dispatch_sends_to_operators_only (W : World) (t : telegram) (u : Update)
    (w : state W) :
  Forall (fun x =>
            (UpdMessage u ≫= Sender = Some (fst x) /\ accepts (settings t) u = true)
            \/ In (fst x) (map (fun user => {| ID := int64 user |})
                               (Users (Telegram (settings t)))))
         (sends (traceOf (run W (dispatch t u) w))).
Proof.
  pose proof (userMiddleware_run W (settings t) u w) as (Hres & Hyes & Hno).
  unfold dispatch. run_step. rewrite run_bind.
  destruct (accepts (settings t) u) eqn:Hacc.
  - rewrite (Hyes eq_refl).
    destruct (UpdMessage u) as [[[sender|] txt]|] eqn:Hu; try constructor.
    cbn [run option_bind]. destruct (answer W (Route txt) w) as [[ep|] w1];
      cbn [option_bind]; [|cbn [run]; constructor].
    destruct (handlerOf (handlers t) ep) as [h|] eqn:Hh; [|cbn [run]; constructor].
    pose proof (handlers_narrow t ep h {| ctxSender := sender; ctxText := txt |} Hh)
      as Hok.
    cbn [ctxSender] in Hok. rewrite run_bind.
    match goal with
    | |- context [@run ?A W (h ?ctx) w1] =>
        pose proof (@sendsOnlyTo_run A (senderOrOperator t sender) W (h ctx) w1 Hok)
          as Hsent;
        destruct (@run A W (h ctx) w1) as [[err tr] w2]
    end.
    assert (Hgoal : forall x : User * text,
               senderOrOperator t sender (fst x) ->
               (Sender {| Sender := Some sender; Text := txt |} = Some (fst x)
                /\ true = true)
               \/ In (fst x) (map (fun user => {| ID := int64 user |})
                                 (Users (Telegram (settings t))))).
    { intros [to what] [Hto|Hin]; [left | right; exact Hin].
      cbn [fst] in *. subst to. split; reflexivity. }
    destruct err as [e|]; cbn [run];
      [destruct (answer W (HandlerFailed e) w2) as [[] w3]|];
      unfold traceOf, sends in *; cbn [fst snd] in *;
      cbn [omap list_omap sendOf app]; rewrite omap_app;
      cbn [omap list_omap sendOf]; rewrite app_nil_r;
      (eapply Forall_impl; [exact Hsent | exact Hgoal]).
  - destruct (Hno eq_refl) as (args & Htr).
    destruct (run W (userMiddleware (settings t) u) w) as [[a tr] w1].
    unfold resultOf, traceOf in *. cbn [fst snd] in *. subst a tr.
    cbn [run]. constructor.
Qed.

(** X9.  The operators pass the filter.  An entry of the allow-list that
    is an int64 is addressed by [Notify] under an identity which the access
    filter accepts: the conversions [int64(user)] on the way out and
    [int(Sender.ID)] on the way in cancel. *)
Theorem operators_pass_the_filter (settings : Settings) (user : Z) (txt : string) :
  In user (Users (Telegram settings)) ->
  isInt64 user ->
  accepts settings
    {| UpdMessage := Some {| Sender := Some {| ID := int64 user |}; Text := txt |} |}
  = true.
Proof.
  intros Hin Hrange. unfold accepts. cbn [UpdMessage Sender ID].
  apply existsb_exists. exists user. split; [exact Hin|].
  apply Z.eqb_eq.
  assert (H64 : int64 user = user).
  { unfold int64, wrap. unfold isInt64 in Hrange. rewrite Z.mod_small; lia. }
  rewrite H64. apply int_of_int64. exact Hrange.
Qed.

(** X9 at operator 2 of the allow-list 1, 2. *)
Lemma operators_pass_the_filter_witness :
  In 2%Z [1; 2]%Z /\ isInt64 2
  /\ accepts (settings (operators [1; 2]%Z))
       {| UpdMessage := Some {| Sender := Some {| ID := int64 2 |}; Text := "/status" |} |}
     = true.
Proof.
  assert (Hin : In 2%Z [1; 2]%Z) by (right; left; reflexivity).
  assert (Hr : isInt64 2) by (unfold isInt64; lia).
  split; [exact Hin|]. split; [exact Hr|].
  exact (operators_pass_the_filter (settings (operators [1; 2]%Z)) 2 "/status" Hin Hr).
Defined.

(** * Further properties of the amount *)

Lemma shr_1_nonneg (mrs : shr_record) :
  (0 <= shr_m mrs)%Z -> (0 <= shr_m (shr_1 mrs))%Z.
Proof.
  destruct mrs as [m r s]. cbn [shr_m]. intros Hm.
  destruct m as [|p|p]; [cbn; lia | | lia].
  destruct p; cbn; lia.
Qed.

Lemma iter_pos_shr_1_nonneg (p : positive) (mrs : shr_record) :
  (0 <= shr_m mrs)%Z -> (0 <= shr_m (SpecFloat.iter_pos shr_1 p mrs))%Z.
Proof.
  revert mrs. induction p as [p IH | p IH |]; intros mrs Hm; cbn [SpecFloat.iter_pos].
  - apply IH, IH, shr_1_nonneg, Hm.
  - apply IH, IH, Hm.
  - apply shr_1_nonneg, Hm.
Qed.

Lemma shr_fexp_nonneg (m e : Z) (l : location) :
  (0 <= m)%Z -> (0 <= shr_m (fst (shr_fexp prec emax m e l)))%Z.
Proof.
  intros Hm. unfold shr_fexp, shr.
  assert (H0 : (0 <= shr_m (shr_record_of_loc m l))%Z)
    by (destruct l as [|[]]; exact Hm).
  destruct (fexp prec emax (Zdigits2 m + e) - e)%Z; cbn [fst];
    [exact H0 | apply iter_pos_shr_1_nonneg, H0 | exact H0].
Qed.

Lemma round_nearest_even_nonneg (m : Z) (l : location) :
  (0 <= m)%Z -> (0 <= round_nearest_even m l)%Z.
Proof.
  intros Hm. unfold round_nearest_even.
  destruct l as [|[]]; try destruct (Z.even m); lia.
Qed.

(** Rounding a magnitude never gives NaN, and keeps the sign. *)
Lemma binary_round_aux_sign (sx : bool) (m e : Z) (l : location) :
  (0 <= m)%Z ->
  binary_round_aux prec emax sx m e l = S754_zero sx
  \/ binary_round_aux prec emax sx m e l = S754_infinity sx
  \/ exists m' e', binary_round_aux prec emax sx m e l = S754_finite sx m' e'.
Proof.
  intros Hm. unfold binary_round_aux.
  pose proof (shr_fexp_nonneg m e l Hm) as H1.
  destruct (shr_fexp prec emax m e l) as [mrs' e']. cbn [fst] in H1.
  pose proof (shr_fexp_nonneg _ e' loc_Exact
                (round_nearest_even_nonneg _ (loc_of_shr_record mrs') H1)) as H2.
  destruct (shr_fexp prec emax _ e' loc_Exact) as [mrs'' e'']. cbn [fst] in H2.
  destruct (shr_m mrs'') as [|p|p]; [left; reflexivity | | lia].
  destruct (e'' <=? emax - prec)%Z; right; [right; eexists _, _|left]; reflexivity.
Qed.

Lemma ofRatio_sign (n : Z) (d : positive) :
  (0 <= n)%Z ->
  ofRatio n d = zero \/ ofRatio n d = S754_infinity false \/ isPositive (ofRatio n d).
Proof.
  intros Hn. unfold ofRatio. destruct n as [|p|p]; [left; reflexivity | | lia].
  unfold div, SFdiv. cbn [xorb].
  destruct (SFdiv_core_binary prec emax (Z.pos p) 0 (Z.pos d) 0) as [[mz ez] lz] eqn:Hcore.
  assert (Hmz : (0 <= mz)%Z).
  { unfold SFdiv_core_binary in Hcore.
    match type of Hcore with
    | context [Z.div_eucl ?a ?b] =>
        pose proof (Z.div_eucl_eq a b ltac:(lia)) as Heq;
        pose proof (Z.mod_pos_bound a b ltac:(lia)) as Hmod;
        assert (Ha : (0 <= a)%Z);
        [|unfold Z.modulo in Hmod; destruct (Z.div_eucl a b) as [q r] eqn:Hqr]
    end.
    - match goal with
      | |- (0 <= match ?s with _ => _ end)%Z =>
          destruct s; [lia | apply Z.shiftl_nonneg; lia | lia]
      end.
    - injection Hcore as <- _ _. nia. }
  destruct (binary_round_aux_sign false mz ez lz Hmz) as [H|[H|H]];
    [left | right; left | right; right]; exact H.
Qed.

Lemma readDigits_nonneg (s : string) (acc : Z) (n : nat) :
  (0 <= acc)%Z -> (0 <= fst (fst (strconv.readDigits acc n s)))%Z.
Proof.
  revert acc n. induction s as [|c s IH]; intros acc n Hacc; cbn [strconv.readDigits].
  - exact Hacc.
  - destruct (Char.isDigit c); [|exact Hacc].
    apply IH. unfold Char.digitVal. lia.
Qed.

Lemma readDecimal_nonneg (s : string) (mant : Z) (scale : nat) :
  strconv.readDecimal s = Some (mant, scale) -> (0 <= mant)%Z.
Proof.
  unfold strconv.readDecimal.
  pose proof (readDigits_nonneg s 0 0 ltac:(lia)) as H1.
  destruct (strconv.readDigits 0 0 s) as [[ip ni] rest]. cbn [fst] in H1.
  destruct rest as [|x frac].
  - destruct (ni =? 0)%nat; [discriminate|]. intros H. injection H as <- _. exact H1.
  - pose proof (readDigits_nonneg frac ip 0 H1) as H2.
    destruct (Ascii.eqb_spec x ".") as [->|Hx].
    + destruct (strconv.readDigits ip 0 frac) as [[m nf] rest']. cbn [fst] in H2.
      destruct rest'; [|discriminate].
      destruct (ni + nf =? 0)%nat; [discriminate|]. intros H. injection H as <- _. exact H2.
    + intros H. exfalso. revert H.
      destruct x as [[] [] [] [] [] [] [] []]; try discriminate; congruence.
Qed.

(** [ParseFloat] on the model's numerals is never negative and never
    NaN: with a [nil] error the value is zero or a finite float64 above
    zero, and with an error it is zero (syntax) or plus infinity (range). *)
Theorem ParseFloat_sign (s : string) :
  match strconv.ParseFloat s with
  | (amount, None) => amount = zero \/ isPositive amount
  | (amount, Some (NumError _ _ ErrRange)) => amount = S754_infinity false
  | (amount, Some _) => amount = zero
  end.
Proof.
  unfold strconv.ParseFloat.
  destruct (strconv.readDecimal s) as [[mant scale]|] eqn:Hread; [|reflexivity].
  apply readDecimal_nonneg in Hread.
  destruct (ofRatio_sign mant (strconv.pow10 scale) Hread) as [H|[H|(m & e & H)]];
    rewrite H; cbn [isInf]; [left; reflexivity | reflexivity |].
  right. exists m, e. reflexivity.
Qed.

(** * Further properties of the order grammars *)

(** ** The groups by name *)

Lemma groupStep_fold_skip (match_ : list string) (l : list (nat * string))
    (key : string) (command : gmap string string) :
  (forall j, In (j, key) l -> j = 0%nat \/ key = "") ->
  fold_left (groupStep match_) l command !! key = command !! key.
Proof.
  revert command. induction l as [|[j name] l IH]; intros command Hskip; [reflexivity|].
  cbn [fold_left]. rewrite IH by (intros j' Hj'; apply Hskip; right; exact Hj').
  unfold groupStep.
  destruct (negb (j =? 0)%nat && negb (name =? "")%string) eqn:Hc; [|reflexivity].
  apply lookup_insert_ne. intros ->.
  apply andb_prop in Hc. destruct Hc as [Hj Hn].
  apply negb_true_iff in Hj, Hn.
  apply Nat.eqb_neq in Hj. apply String.eqb_neq in Hn.
  destruct (Hskip j (or_introl eq_refl)); contradiction.
Qed.

Lemma groupStep_fold_hit (match_ : list string) (l : list (nat * string))
    (key : string) (i : nat) (command : gmap string string) :
  i <> 0%nat -> key <> "" ->
  (forall j, In (j, key) l -> j = i) ->
  command !! key = Some (nth i match_ "") \/ In (i, key) l ->
  fold_left (groupStep match_) l command !! key = Some (nth i match_ "").
Proof.
  intros Hi Hkey. revert command.
  induction l as [|[j name] l IH]; intros command Huniq Hfrom.
  - destruct Hfrom as [H|[]]. exact H.
  - cbn [fold_left]. apply IH; [intros j' Hj'; apply Huniq; right; exact Hj'|].
    destruct (String.eqb_spec name key) as [->|Hne].
    + left. rewrite (Huniq j (or_introl eq_refl)). unfold groupStep.
      apply Nat.eqb_neq in Hi. apply String.eqb_neq in Hkey.
      rewrite Hi, Hkey. cbn [negb andb]. apply lookup_insert_eq.
    + destruct Hfrom as [H|[H|H]].
      * left. unfold groupStep.
        destruct (negb (j =? 0)%nat && negb (name =? "")%string); [|exact H].
        rewrite lookup_insert_ne by exact Hne. exact H.
      * congruence.
      * right. exact H.
Qed.

Lemma combine_seq_In (A : Type) (l : list A) (k j : nat) (x : A) :
  In (j, x) (combine (seq k (length l)) l) <->
  (k <= j)%nat /\ nth_error l (j - k) = Some x.
Proof.
  revert k. induction l as [|y l IH]; intros k; cbn [length seq combine].
  - split; [intros [] | intros [_ H]]. destruct (j - k)%nat; discriminate H.
  - cbn [In]. rewrite IH. split.
    + intros [H|[Hle H]].
      * injection H as <- <-. split; [lia|]. rewrite Nat.sub_diag. reflexivity.
      * split; [lia|]. replace (j - k)%nat with (S (j - S k)) by lia. exact H.
    + intros [Hle H]. destruct (Nat.eq_dec j k) as [->|Hne].
      * rewrite Nat.sub_diag in H. injection H as <-. left. reflexivity.
      * right. split; [lia|].
        replace (j - k)%nat with (S (j - S k)) in H by lia. exact H.
Qed.

Lemma namedGroups_fold (names match_ : list string) :
  namedGroups names match_
  = fold_left (groupStep match_) (combine (seq 0 (length names)) names) ∅.
Proof. reflexivity. Qed.

(** X10.  The loop over [SubexpNames] in the order handlers.  For a name
    that stands at one index only, [command[name]] is [match[i]] of that
    index, except that index 0 and the empty name are left out of the map
    and read as the empty string. *)
Theorem namedGroups_lookup (names match_ : list string) (key : string) (i : nat) :
  nth_error names i = Some key ->
  (forall j, nth_error names j = Some key -> j = i) ->
  at_ (namedGroups names match_) key
  = if ((i =? 0)%nat || (key =? "")%string)%bool then "" else nth i match_ "".
Proof.
  intros Hat Huniq. unfold at_. rewrite namedGroups_fold.
  assert (Hin : In (i, key) (combine (seq 0 (length names)) names)).
  { apply combine_seq_In. split; [lia|]. rewrite Nat.sub_0_r. exact Hat. }
  assert (Hone : forall j, In (j, key) (combine (seq 0 (length names)) names) -> j = i).
  { intros j Hj. apply combine_seq_In in Hj. destruct Hj as [_ Hj].
    rewrite Nat.sub_0_r in Hj. apply Huniq, Hj. }
  destruct (Nat.eqb_spec i 0) as [Hi|Hi]; cbn [orb].
  - rewrite groupStep_fold_skip; [reflexivity|].
    intros j Hj. left. rewrite (Hone j Hj). exact Hi.
  - destruct (String.eqb_spec key "") as [Hk|Hk].
    + rewrite groupStep_fold_skip; [reflexivity|]. intros j _. right. exact Hk.
    + rewrite (groupStep_fold_hit match_ _ key i ∅ Hi Hk Hone (or_intror Hin)).
      reflexivity.
Qed.

(** X10 at the amount group of the buy grammar. *)
Lemma namedGroups_lookup_witness :
  nth_error (SubexpNames buyRegexp) 2 = Some "amount"
  /\ at_ (namedGroups (SubexpNames buyRegexp) ["/buy BTCUSDT 7"; "BTCUSDT"; "7"; ""])
         "amount" = "7".
Proof.
  assert (Hat : nth_error (SubexpNames buyRegexp) 2 = Some "amount") by reflexivity.
  assert (Huniq : forall j, nth_error (SubexpNames buyRegexp) j = Some "amount" -> j = 2%nat).
  { intros j. do 4 (destruct j as [|j]; [cbn; congruence|]). destruct j; discriminate. }
  split; [exact Hat|].
  exact (namedGroups_lookup (SubexpNames buyRegexp)
           ["/buy BTCUSDT 7"; "BTCUSDT"; "7"; ""] "amount" 2 Hat Huniq).
Defined.

(** A name that is not a group of the expression reads as the empty
    string. *)
Lemma namedGroups_absent (names match_ : list string) (key : string) :
  ~ In key names -> at_ (namedGroups names match_) key = "".
Proof.
  intros Hnot. unfold at_. rewrite namedGroups_fold.
  rewrite groupStep_fold_skip; [reflexivity|].
  intros j Hj. exfalso. apply Hnot. apply in_combine_r in Hj. exact Hj.
Qed.

(** ** No match *)

(** X11.  The usage branch of the order handlers.  [FindStringSubmatch]
    of the buy or the sell grammar returns nothing exactly when no piece of
    the text, wherever it starts and ends, is matched by the grammar. *)
Theorem no_match_iff (side : SideType) (txt : string) :
  FindStringSubmatch (grammarOf side) txt = []
  <-> (forall b m rest caps,
          txt = b +:+ m +:+ rest -> ~ Match (grammarOf side) m [] caps).
Proof.
  split.
  - intros Hnil b m rest caps -> HM.
    pose proof (grammar_matches_somewhere side m rest caps HM) as Hsome.
    apply (find_finds (grammarOf side) b) in Hsome.
    unfold FindStringSubmatch in Hnil.
    destruct (find (grammarOf side) (b +:+ m +:+ rest)); [|congruence].
    cbn [seq map] in Hnil. discriminate Hnil.
  - intros Hno.
    destruct (FindStringSubmatch (grammarOf side) txt) as [|x l] eqn:Hfs; [reflexivity|].
    exfalso.
    assert (Hne : FindStringSubmatch (grammarOf side) txt <> []) by (rewrite Hfs; discriminate).
    destruct (FindStringSubmatch_shape side txt Hne)
      as (before & whole & after & p & a & pc & caps & Htxt & HM & _).
    apply Match_Group_inv in HM. destruct HM as (c1 & HM & _).
    exact (Hno before whole after c1 Htxt HM).
Qed.

(** ** The anatomy of a match *)

Lemma orderGrammar_parts (m : string) (c c' : Captures) :
  Match orderGrammar m c c' ->
  exists ws1 p ws2 a pc,
    m = ws1 +:+ p +:+ ws2 +:+ a +:+ pc
    /\ ws1 <> "" /\ allChars Char.isSpace ws1 = true
    /\ ws2 <> "" /\ allChars Char.isSpace ws2 = true
    /\ ((pc = "" /\ c' = (2, a) :: (1, p) :: c)%nat
        \/ (pc = "%" /\ c' = (3, "%") :: (2, a) :: (1, p) :: c)%nat).
Proof.
  unfold orderGrammar. intros H.
  apply Match_Cat_inv in H. destruct H as (ws1 & m1 & c1 & -> & Hws1 & H).
  apply Match_PlusClass_inv in Hws1. destruct Hws1 as (-> & Hws1 & Hall1).
  apply Match_Cat_inv in H. destruct H as (p & m2 & c2 & -> & Hp & H).
  apply Match_Group_inv in Hp. destruct Hp as (c1' & Hp & ->).
  apply Match_PlusClass_inv in Hp. destruct Hp as (-> & _ & _).
  apply Match_Cat_inv in H. destruct H as (ws2 & m3 & c3 & -> & Hws2 & H).
  apply Match_PlusClass_inv in Hws2. destruct Hws2 as (-> & Hws2 & Hall2).
  apply Match_Cat_inv in H. destruct H as (a & pc & c4 & -> & Ha & Hpc).
  apply Match_Group_inv in Ha. destruct Ha as (c3' & Ha & ->).
  assert (Hc3 : c3' = (1%nat, p) :: c).
  { apply Match_Cat_inv in Ha. destruct Ha as (ip & fr & c5 & _ & Hip & Hfr).
    apply Match_PlusClass_inv in Hip. destruct Hip as (-> & _ & _).
    apply Match_Quest_inv in Hfr. destruct Hfr as [(_ & ->)|Hfr]; [reflexivity|].
    apply Match_Cat_inv in Hfr. destruct Hfr as (dot & fp & c6 & _ & Hdot & Hfp).
    apply Match_Lit_inv in Hdot. destruct Hdot as (_ & ->).
    apply Match_PlusClass_inv in Hfp. destruct Hfp as (-> & _ & _). reflexivity. }
  subst c3'.
  exists ws1, p, ws2, a, pc.
  split; [reflexivity|]. split; [exact Hws1|]. split; [exact Hall1|].
  split; [exact Hws2|]. split; [exact Hall2|].
  apply Match_Quest_inv in Hpc. destruct Hpc as [(-> & ->)|Hpc].
  - left. split; reflexivity.
  - apply Match_Group_inv in Hpc. destruct Hpc as (c7 & Hpc & ->).
    apply Match_Lit_inv in Hpc. destruct Hpc as (-> & ->).
    right. split; reflexivity.
Qed.

Lemma grammar_parts (side : SideType) (m : string) (caps : Captures) :
  Match (Group 0 "" (grammarOf side)) m [] caps ->
  exists ws1 p ws2 a pc,
    m = keywordOf side +:+ ws1 +:+ p +:+ ws2 +:+ a +:+ pc
    /\ ws1 <> "" /\ allChars Char.isSpace ws1 = true
    /\ ws2 <> "" /\ allChars Char.isSpace ws2 = true
    /\ capture 0 caps = Some m
    /\ capture 1 caps = Some p
    /\ capture 2 caps = Some a
    /\ default "" (capture 3 caps) = pc
    /\ (capture 3 caps = Some "%" -> pc = "%").
Proof.
  intros H. apply Match_Group_inv in H. destruct H as (c1 & H & ->).
  assert (Hg : exists m', m = keywordOf side +:+ m' /\ Match orderGrammar m' [] c1).
  { destruct side; cbn [grammarOf] in H; unfold buyRegexp, sellRegexp in H;
      repeat (apply Match_Cat_inv in H;
              destruct H as (? & ? & ? & -> & Hl & H);
              apply Match_Lit_inv in Hl; destruct Hl as (-> & ->));
      eexists; (split; [|exact H]); reflexivity. }
  destruct Hg as (m' & -> & Hg). apply orderGrammar_parts in Hg.
  destruct Hg as (ws1 & p & ws2 & a & pc & -> & Hws1 & Hall1 & Hws2 & Hall2 & Hpc).
  exists ws1, p, ws2, a, pc.
  destruct Hpc as [(-> & ->)|(-> & ->)]; cbn [capture Nat.eqb default];
    repeat split; auto; discriminate.
Qed.

(** ** The match is as long as it can be *)

Lemma headSat_app (P : result -> Prop) (l1 l2 : list result) :
  headSat P l1 -> (l1 = [] -> headSat P l2) -> headSat P (l1 ++ l2).
Proof. destruct l1; cbn; auto. Qed.

Lemma headSat_map (P : result -> Prop) (f : result -> result) (l : list result) :
  headSat (fun x => P (f x)) l -> headSat P (map f l).
Proof. destruct l; cbn; auto. Qed.

Lemma headSat_impl (P Q : result -> Prop) (l : list result) :
  (forall x, P x -> Q x) -> headSat P l -> headSat Q l.
Proof. destruct l; cbn; auto. Qed.

(** The preferred way of [r1 r2] ends with the preferred way of [r2] from
    where some way of [r1] stopped. *)
Lemma headSat_andThen (P : result -> Prop) (rs : list result)
    (k : string -> Captures -> list result) :
  (forall m1 c1 s1,
      In (m1, c1, s1) rs ->
      headSat (fun '(m2, c2, s2) => P (m1 +:+ m2, c2, s2)) (k s1 c1)) ->
  headSat P (andThen rs k).
Proof.
  unfold andThen. induction rs as [|[[m1 c1] s1] rs IH]; intros Hk; [exact I|].
  cbn [flat_map]. apply headSat_app.
  - apply headSat_map. eapply headSat_impl; [|apply (Hk m1 c1 s1); left; reflexivity].
    intros [[m2 c2] s2] H. exact H.
  - intros _. apply IH. intros m c s Hin. apply Hk. right. exact Hin.
Qed.

(** When [r2] cannot fail, the preferred way of [r1 r2] goes through the
    preferred way of [r1]. *)
Lemma headSat_andThen_total (P Q : result -> Prop) (rs : list result)
    (k : string -> Captures -> list result) :
  headSat Q rs ->
  (forall m1 c1 s1,
      Q (m1, c1, s1) ->
      k s1 c1 <> []
      /\ headSat (fun '(m2, c2, s2) => P (m1 +:+ m2, c2, s2)) (k s1 c1)) ->
  headSat P (andThen rs k).
Proof.
  unfold andThen. destruct rs as [|[[m1 c1] s1] rs]; intros HQ Hk; [exact I|].
  cbn [headSat] in HQ. destruct (Hk m1 c1 s1 HQ) as [Hne Hhead].
  cbn [flat_map]. destruct (k s1 c1) as [|[[m2 c2] s2] l]; [congruence|].
  exact Hhead.
Qed.

(** [\d+] and the like take every character they can. *)
Lemma iterate_class_head (k : class) (n : nat) (s : string) (c : Captures) :
  (String.length s < n)%nat ->
  headSat (fun '(_, c', rest) => c' = c /\ stopsAt (inClass k) rest)
          (iterate (matches (Class k)) n s c).
Proof.
  revert s. induction n as [|n IH]; intros s Hlen; [lia|].
  cbn [iterate]. destruct s as [|a s]; [exact I|].
  change (matches (Class k) (String a s) c)
    with (if inClass k a then [(one a, c, s)] else []).
  destruct (inClass k a) eqn:Ha; [|exact I].
  cbn [flat_map]. rewrite app_nil_r.
  cbn [String.length] in Hlen.
  pose proof (IH s ltac:(lia)) as Hs.
  destruct (iterate (matches (Class k)) n s c) as [|[[m2 c2] s2] l] eqn:Hit.
  - cbn [map app headSat]. split; [reflexivity|].
    destruct s as [|b s]; [exact I|]. cbn [stopsAt].
    destruct (inClass k b) eqn:Hb; [|reflexivity]. exfalso.
    destruct n as [|n]; [cbn [String.length] in Hlen; lia|].
    cbn [iterate] in Hit.
    change (matches (Class k) (String b s) c)
      with (if inClass k b then [(one b, c, s)] else []) in Hit.
    rewrite Hb in Hit. cbn [flat_map] in Hit. rewrite app_nil_r in Hit.
    destruct (map _ _) in Hit; discriminate Hit.
  - cbn [map app headSat]. exact Hs.
Qed.

Lemma amount_head (s : string) (c : Captures) :
  headSat (fun '(_, _, rest) => stopsAt Char.isDigit rest)
    (matches (Group 2 "amount"
                (Plus (Class PerlDigit) · Quest (Lit "." · Plus (Class PerlDigit)))%re)
             s c).
Proof.
  cbn [matches]. apply headSat_map.
  apply (headSat_andThen_total _
           (fun '(_, c', rest) => c' = c /\ stopsAt Char.isDigit rest)).
  - apply (iterate_class_head PerlDigit). lia.
  - intros m1 c1 s1 [_ Hstop]. split; [destruct (andThen _ _); discriminate|].
    apply headSat_app.
    + apply headSat_andThen. intros m2 c2 s2 _.
      eapply headSat_impl; [|apply (iterate_class_head PerlDigit); lia].
      intros [[m3 c3] s3] [_ H]. exact H.
    + intros _. exact Hstop.
Qed.

Lemma amount_percent_head (s : string) (c : Captures) :
  headSat (fun '(_, c', rest) => capture 3 c' = Some "%" \/ endsAmount rest)
    (matches (Group 2 "amount"
                (Plus (Class PerlDigit) · Quest (Lit "." · Plus (Class PerlDigit)))
              · Quest (Group 3 "percent" (Lit "%")))%re
             s c).
Proof.
  cbn [matches].
  refine (headSat_andThen_total _ _ _ _ (amount_head s c) _).
  intros m1 c1 s1 Hstop. split; [destruct (map _ _); discriminate|].
  destruct s1 as [|x s1]; cbn [single map app headSat].
  - right. exact I.
  - destruct (Ascii.eqb "%" x) eqn:Hx; cbn [map app headSat].
    + apply Ascii.eqb_eq in Hx. subst x. left. reflexivity.
    + right. unfold endsAmount. cbn [stopsAt] in *. rewrite Hstop, Hx. reflexivity.
Qed.

Lemma Cat_head (P : result -> Prop) (r1 r2 : Regexp) (s : string) (c : Captures) :
  (forall m1 m2 c2 s2, P (m2, c2, s2) -> P (m1 +:+ m2, c2, s2)) ->
  (forall s' c', headSat P (matches r2 s' c')) ->
  headSat P (matches (Cat r1 r2) s c).
Proof.
  intros Hany H2. cbn [matches]. apply headSat_andThen. intros m1 c1 s1 _.
  eapply headSat_impl; [|apply H2]. intros [[m2 c2] s2]. apply Hany.
Qed.

Lemma grammar_head (side : SideType) (s : string) :
  headSat (fun '(_, c', rest) => capture 3 c' = Some "%" \/ endsAmount rest)
          (matches (Group 0 "" (grammarOf side)) s []).
Proof.
  cbn [matches]. apply headSat_map.
  eapply headSat_impl with
    (P := fun '(_, c', rest) => capture 3 c' = Some "%" \/ endsAmount rest).
  { intros [[m c'] rest] H. exact H. }
  destruct side; cbn [grammarOf]; unfold buyRegexp, sellRegexp, orderGrammar;
    repeat first [ apply amount_percent_head
                 | apply Cat_head; [intros ? ? ? ? H; exact H | intros ? ?] ].
Qed.

(** X12.  The anatomy of a match.  When [FindStringSubmatch] of the buy or
    the sell grammar succeeds, the whole match stands in the text and is
    the command word, white space, the pair, white space, the amount and
    the percent group, both runs of white space being non-empty; and the
    match is as long as it can be: when the percent group is empty, the
    text after the match goes on with neither a digit nor a percent sign. *)
Theorem order_match_anatomy (side : SideType) (txt whole p a pc : string) :
  FindStringSubmatch (grammarOf side) txt = [whole; p; a; pc] ->
  exists before after ws1 ws2,
    txt = before +:+ whole +:+ after
    /\ whole = keywordOf side +:+ ws1 +:+ p +:+ ws2 +:+ a +:+ pc
    /\ ws1 <> "" /\ allChars Char.isSpace ws1 = true
    /\ ws2 <> "" /\ allChars Char.isSpace ws2 = true
    /\ (pc = "" -> endsAmount after).
Proof.
  intros Hfs.
  assert (Hne : FindStringSubmatch (grammarOf side) txt <> []) by (rewrite Hfs; discriminate).
  destruct (FindStringSubmatch_find side txt Hne) as (caps & Hfind & Hlist).
  destruct (find_some _ _ _ Hfind) as (before & s' & m & rest & tl & -> & Hm & _).
  pose proof (grammar_head side s') as Hhead. rewrite Hm in Hhead. cbn [headSat] in Hhead.
  assert (Hin : In (m, caps, rest) (matches (Group 0 "" (grammarOf side)) s' []))
    by (rewrite Hm; left; reflexivity).
  apply matches_sound in Hin. destruct Hin as [-> HM].
  destruct (grammar_parts side m caps HM)
    as (ws1 & p' & ws2 & a' & pc' & Hwhole & Hws1 & Hall1 & Hws2 & Hall2
        & H0 & H1 & H2 & H3 & Hpct).
  rewrite Hlist, H0, H1, H2, H3 in Hfs. cbn [default] in Hfs.
  injection Hfs as <- <- <- <-.
  exists before, rest, ws1, ws2.
  split; [reflexivity|]. split; [exact Hwhole|].
  split; [exact Hws1|]. split; [exact Hall1|]. split; [exact Hws2|]. split; [exact Hall2|].
  intros Hpc. destruct Hhead as [H|H]; [|exact H].
  apply Hpct in H. congruence.
Qed.

(** X12 at "say /buy  btcusdt 50 now". *)
Lemma order_match_anatomy_witness :
  FindStringSubmatch (grammarOf SideTypeBuy) "say /buy  btcusdt 50 now"
  = ["/buy  btcusdt 50"; "btcusdt"; "50"; ""]
  /\ exists before after ws1 ws2,
      "say /buy  btcusdt 50 now" = before +:+ "/buy  btcusdt 50" +:+ after
      /\ "/buy  btcusdt 50" = keywordOf SideTypeBuy +:+ ws1 +:+ "btcusdt" +:+ ws2 +:+ "50" +:+ ""
      /\ ws1 <> "" /\ allChars Char.isSpace ws1 = true
      /\ ws2 <> "" /\ allChars Char.isSpace ws2 = true
      /\ ("" = "" -> endsAmount after).
Proof.
  assert (H : FindStringSubmatch (grammarOf SideTypeBuy) "say /buy  btcusdt 50 now"
              = ["/buy  btcusdt 50"; "btcusdt"; "50"; ""]) by (vm_compute; reflexivity).
  split; [exact H|].
  exact (order_match_anatomy SideTypeBuy _ _ _ _ _ H).
Defined.

(** * The parsed intent *)

Lemma toUpper_word (c : ascii) :
  Char.isWord c = true ->
  Char.isWord (Char.toUpper c) = true /\ Char.isLower (Char.toUpper c) = false.
Proof.
  destruct c as [[] [] [] [] [] [] [] []]; vm_compute; intros H;
    first [discriminate H | split; reflexivity].
Qed.

Lemma ToUpper_word (p : string) :
  allChars Char.isWord p = true ->
  allChars Char.isWord (strings.ToUpper p) = true
  /\ allChars (fun c => negb (Char.isLower c)) (strings.ToUpper p) = true.
Proof.
  induction p as [|c p IH]; cbn [allChars strings.ToUpper]; [split; reflexivity|].
  intros H. apply andb_prop in H. destruct H as [Hc Hp].
  destruct (toUpper_word c Hc) as [Hw Hl]. destruct (IH Hp) as [IHw IHl].
  rewrite Hw, Hl, IHw, IHl. split; reflexivity.
Qed.

Lemma leb_positive (x : float64) : isPositive x -> leb x zero = false.
Proof. intros (m & e & ->). reflexivity. Qed.

Lemma parseOrder_matches (side : SideType) (txt : string) (i : ParsedOrderIntent) :
  parseOrder (grammarOf side) txt <> inl NoMatch ->
  FindStringSubmatch (grammarOf side) txt <> [].
Proof.
  intros H Hnil. apply H. unfold parseOrder. rewrite Hnil. reflexivity.
Qed.

(** X13.  What an intent is.  Whenever the text of a buy or sell command
    is parsed into an intent, the pair is not empty and is made of digits,
    capital letters and underscores only, and the amount is a finite
    float64 above zero: neither zero, negative, infinite nor NaN. *)
Theorem intent_invariant (side : SideType) (txt : string) (i : ParsedOrderIntent) :
  parseOrder (grammarOf side) txt = inr i ->
  intentPair i <> ""
  /\ allChars Char.isWord (intentPair i) = true
  /\ allChars (fun c => negb (Char.isLower c)) (intentPair i) = true
  /\ isPositive (intentAmount i).
Proof.
  intros Hparse.
  assert (Hne : FindStringSubmatch (grammarOf side) txt <> []).
  { apply (parseOrder_matches side txt i). rewrite Hparse. discriminate. }
  destruct (FindStringSubmatch_shape side txt Hne)
    as (before & whole & after & p & a & pc & caps & _ & _ & Hm & _ & Hpne & Hp & _).
  rewrite (parseOrder_matched side txt whole p a pc Hm) in Hparse.
  pose proof (ParseFloat_sign a) as Hsign.
  destruct (strconv.ParseFloat a) as [amount [e|]]; [discriminate Hparse|].
  destruct Hsign as [->|Hpos]; [discriminate Hparse|].
  rewrite (leb_positive amount Hpos) in Hparse. injection Hparse as <-.
  cbn [intentPair intentAmount].
  destruct (ToUpper_word p Hp) as [Hw Hl].
  split; [|split; [exact Hw | split; [exact Hl | exact Hpos]]].
  destruct p; [congruence | discriminate].
Qed.

(** X13 at "/sell ethusdt 12.5%". *)
Lemma intent_invariant_witness :
  let i := {| intentPair := "ETHUSDT";
              intentAmount := ofRatio 125 10;
              sizingMode := PercentOfPosition |} in
  parseOrder (grammarOf SideTypeSell) "/sell ethusdt 12.5%" = inr i
  /\ intentPair i <> ""
  /\ allChars Char.isWord (intentPair i) = true
  /\ allChars (fun c => negb (Char.isLower c)) (intentPair i) = true
  /\ isPositive (intentAmount i).
Proof.
  intros i.
  assert (H : parseOrder (grammarOf SideTypeSell) "/sell ethusdt 12.5%" = inr i)
    by (vm_compute; reflexivity).
  split; [exact H|].
  exact (intent_invariant SideTypeSell "/sell ethusdt 12.5%" i H).
Defined.

(** X14.  The test [amount <= 0] of the order handlers.  [ParseFloat]
    never gives a negative amount, so parsing ends in the validation error
    exactly when the text matches and the amount group reads as zero. *)
Theorem invalid_amount_iff (side : SideType) (txt : string) :
  parseOrder (grammarOf side) txt = inl InvalidAmount
  <-> exists whole p a pc,
        FindStringSubmatch (grammarOf side) txt = [whole; p; a; pc]
        /\ strconv.ParseFloat a = (zero, None).
Proof.
  split.
  - intros Hparse.
    assert (Hne : FindStringSubmatch (grammarOf side) txt <> []).
    { apply (parseOrder_matches side txt
               {| intentPair := ""; intentAmount := zero; sizingMode := Absolute |}).
      rewrite Hparse. discriminate. }
    destruct (FindStringSubmatch_shape side txt Hne)
      as (before & whole & after & p & a & pc & caps & _ & _ & Hm & _).
    exists whole, p, a, pc. split; [exact Hm|].
    rewrite (parseOrder_matched side txt whole p a pc Hm) in Hparse.
    pose proof (ParseFloat_sign a) as Hsign.
    destruct (strconv.ParseFloat a) as [amount [e|]]; [discriminate Hparse|].
    destruct Hsign as [->|Hpos]; [reflexivity|].
    rewrite (leb_positive amount Hpos) in Hparse. discriminate Hparse.
  - intros (whole & p & a & pc & Hm & Hzero).
    rewrite (parseOrder_matched side txt whole p a pc Hm), Hzero. reflexivity.
Qed.

(** * The quote currencies of the balance *)

Lemma balanceQuotes_map (entries : list (string * float64)) (message : text)
    (total : float64) :
  fst (balanceQuotes entries message total) = message ++ map quoteLine entries.
Proof.
  revert message total. induction entries as [|[quote value] rest IH];
    intros message total; cbn [balanceQuotes map].
  - rewrite app_nil_r. reflexivity.
  - rewrite IH, <- app_assoc. reflexivity.
Qed.

(** The first loop of [BalanceHandle] leaves in [quotesValue] the quote
    currency of every pair, and nothing else. *)
Lemma balancePairs_quotes (W : World) (t : telegram) (account : Account)
    (split : string -> string * string)
    (pairs : list string) (message : text) (quotesValue : gmap string float64)
    (total : float64) (w : state W) :
  (forall p w', fst (answer W (SplitAssetQuote p) w') = split p) ->
  match resultOf (run W (balancePairs t account pairs message quotesValue total) w) with
  | inl _ => True
  | inr (_, quotesValue', _) =>
      forall k, is_Some (quotesValue' !! k)
                <-> is_Some (quotesValue !! k)
                    \/ In k (map (fun p => snd (split p)) pairs)
  end.
Proof.
  intros Hsplit. revert message quotesValue total w.
  induction pairs as [|p rest IH]; intros message quotesValue total w;
    cbn [balancePairs].
  - run_step. unfold resultOf. cbn [fst map In]. intros k. tauto.
  - run_step. pose proof (Hsplit p w) as Hp.
    destruct (answer W (SplitAssetQuote p) w) as [[assetPair quotePair] w1].
    cbn [fst] in Hp.
    destruct (account assetPair quotePair) as [assetBalance quoteBalance].
    cbn [run bind].
    destruct (answer W (ControllerLastQuote p) w1) as [[quote [e|]] w2]; cbn [run bind].
    + destruct (answer W (LogError _) w2) as [[] w3].
      rewrite run_bind.
      destruct (run W (OnError t (Some e)) w3) as [[[] tr] w4].
      cbn [run]. exact I.
    + match goal with
      | |- context [balancePairs t account rest ?m ?q ?tot] =>
          specialize (IH m q tot w2)
      end.
      destruct (run W (balancePairs t account rest _ _ _) w2) as [[res tr] w3].
      unfold resultOf in *. cbn [fst snd] in *.
      destruct res as [e|[[message' qv'] total']]; [exact I|].
      intros k. rewrite (IH k), lookup_insert_is_Some. cbn [map In].
      rewrite <- Hp. cbn [snd].
      destruct (decide (quotePair = k)); tauto.
Qed.

(** X15.  The quote lines of the balance.  [quotesValue] is keyed by the
    quote currency, so when [SplitAssetQuote] is a function of the pair and
    no lookup of the engine fails, the message sent to the requester has a
    line for every pair of the settings and then exactly one line for each
    quote currency among them, however many pairs share it. *)
Theorem BalanceHandle_quote_lines (W : World) (t : telegram) (c : Context)
    (w : state W) (split : string -> string * string) :
  (forall p w', fst (answer W (SplitAssetQuote p) w') = split p) ->
  (forall m w', fst (answer W (RangeQuotes m) w') ≡ₚ map_to_list m) ->
  Forall (fun err => err = None) (lookups (traceOf (run W (BalanceHandle t c) w))) ->
  exists lines entries total,
    sends (traceOf (run W (BalanceHandle t c) w))
    = [(ctxSender c,
        [Literal "*BALANCE*
"] ++ lines ++ map quoteLine entries ++ [Sprintf "-----
Total: `%.4f`
" [AFloat total]])]
    /\ length lines = length (Pairs (settings t))
    /\ NoDup (map fst entries)
    /\ forall q, In q (map fst entries)
                 <-> In q (map (fun p => snd (split p)) (Pairs (settings t))).
Proof.
  intros Hsplit Hrange. unfold BalanceHandle. run_step.
  destruct (answer W ControllerAccount w) as [[account [e|]] w1]; cbn [run bind].
  - destruct (answer W (LogError _) w1) as [[] w2].
    rewrite run_bind.
    destruct (run W (OnError t (Some e)) w2) as [[[] tr] w3].
    cbn [run]. intros Hall. exfalso.
    unfold traceOf, lookups in Hall. cbn [fst snd omap list_omap lookupOf] in Hall.
    apply Forall_cons in Hall. destruct Hall as [Hall _]. discriminate Hall.
  - rewrite run_bind.
    pose proof (balancePairs_run W t account (Pairs (settings t))
                  [Literal "*BALANCE*
"] ∅ zero w1) as Hloop.
    pose proof (balancePairs_quotes W t account split (Pairs (settings t))
                  [Literal "*BALANCE*
"] ∅ zero w1 Hsplit) as Hquotes.
    cbv zeta in Hloop.
    destruct (run W (balancePairs t account (Pairs (settings t)) _ _ _) w1)
      as [[res tr] w2].
    unfold resultOf, traceOf in Hloop, Hquotes. cbn [fst snd] in Hloop, Hquotes.
    destruct res as [e|[[message qv] total]].
    + intros Hall. exfalso. destruct Hloop as ((k & Hk & Hl) & _).
      cbn [run] in Hall. unfold traceOf, lookups in *. cbn [fst snd] in *.
      rewrite app_nil_r in Hall. cbn [omap list_omap lookupOf] in Hall.
      rewrite Hl in Hall.
      apply Forall_cons in Hall. destruct Hall as [_ Hall].
      apply Forall_app in Hall. destruct Hall as [_ Hall].
      apply Forall_cons in Hall. destruct Hall as [Hall _]. discriminate Hall.
    + intros _. destruct Hloop as (_ & Hs & lines & Hm & Hlen).
      cbn [run bind].
      pose proof (Hrange qv w2) as Hperm.
      destruct (answer W (RangeQuotes qv) w2) as [entries w3]. cbn [fst] in Hperm.
      pose proof (balanceQuotes_map entries message total) as Hq.
      destruct (balanceQuotes entries message total) as [message' total'].
      cbn [fst] in Hq. subst message'. cbn [run bind].
      destruct (answer W (ClientSend _ _ _) w3) as [err w4].
      rewrite run_bind.
      pose proof (logIfError_run W err w4) as (Hs' & _).
      destruct (run W (logIfError err) w4) as [[[] tr'] w5].
      cbn [run]. unfold traceOf, sends in *. cbn [fst snd] in *.
      cbn [omap list_omap sendOf].
      rewrite !omap_app. cbn [omap list_omap sendOf].
      rewrite Hs, !app_nil_r, Hs'. cbn [app].
      exists lines, entries, total'.
      split; [rewrite Hm, <- !app_assoc; reflexivity|]. split; [exact Hlen|].
      split.
      * rewrite Hperm. apply NoDup_fst_map_to_list.
      * intros q.
        assert (Hdom : In q (map fst entries) <-> is_Some (qv !! q)).
        { rewrite <- list_elem_of_In, Hperm, list_elem_of_fmap. split.
          - intros ([q' v] & -> & Hin). apply elem_of_map_to_list in Hin.
            exists v. exact Hin.
          - intros [v Hv]. exists (q, v). split; [reflexivity|].
            apply elem_of_map_to_list. exact Hv. }
        rewrite Hdom, (Hquotes q). split; [|intros H; right; exact H].
        intros [[v Hv]|H]; [|exact H]. rewrite lookup_empty in Hv. discriminate Hv.
Qed.

(** X15 with the pairs BTCUSDT and ETHUSDT, both quoted in USDT. *)
Lemma BalanceHandle_quote_lines_witness :
  Forall (fun err => err = None)
         (lookups (traceOf (run (scripted calm) (BalanceHandle twoPairs (from 1 "/balance"))
                                StatusRunning)))
  /\ exists lines entries total,
      sends (traceOf (run (scripted calm) (BalanceHandle twoPairs (from 1 "/balance"))
                          StatusRunning))
      = [(ctxSender (from 1 "/balance"),
          [Literal "*BALANCE*
"] ++ lines ++ map quoteLine entries ++ [Sprintf "-----
Total: `%.4f`
" [AFloat total]])]
      /\ length lines = length (Pairs (settings twoPairs))
      /\ NoDup (map fst entries)
      /\ forall q, In q (map fst entries)
                   <-> In q (map (fun p => snd (splitOf calm p)) (Pairs (settings twoPairs))).
Proof.
  assert (Hall : Forall (fun err => err = None)
                   (lookups (traceOf (run (scripted calm)
                                          (BalanceHandle twoPairs (from 1 "/balance"))
                                          StatusRunning))))
    by (vm_compute; repeat constructor).
  split; [exact Hall|].
  exact (BalanceHandle_quote_lines (scripted calm) twoPairs (from 1 "/balance")
           StatusRunning (splitOf calm)
           (fun p w' => eq_refl) (fun m w' => reflexivity _) Hall).
Defined.
